(** * static_any: a fixed-capacity, type-erasing value container

    A shallow embedding of [any.hpp]: the per-type administrative function
    [operation<_T>], the safe container [static_any<_N>], the accessors
    [any_cast] / [get] with their [bad_any_cast] failure, and the
    trivially-copyable holder [static_any_t<_N>].

    Two layers are kept apart, as in C++:
    - [template A]: what instantiating a template gives, either the
      instantiated function or a compile-time rejection ([static_assert],
      an ill-formed expression in the body);
    - [M A]: what running a function does to the memory of the program,
      either a result and a new memory, or a fault ([assert] failing, an
      exception, an access outside an object). *)

From stdpp Require Import base strings list gmap.
From Stdlib Require Import Init.Byte.

(** ** Types as template arguments *)

Definition type_name := string.

Inductive ref_qualifier := no_ref | lvalue_ref | rvalue_ref.

(** A possibly cv-qualified object type [named], or a reference to it. *)
Record cpp_type := {
  named : type_name;
  is_const : bool;
  is_volatile : bool;
  reference : ref_qualifier }.

Global Instance ref_qualifier_eq_dec : EqDecision ref_qualifier.
Proof. solve_decision. Defined.

Global Instance cpp_type_eq_dec : EqDecision cpp_type.
Proof. solve_decision. Defined.

(** The unqualified object type of that name. *)
Definition plain (n : type_name) : cpp_type :=
  {| named := n; is_const := false; is_volatile := false; reference := no_ref |}.

(** [std::remove_reference_t<_T>] *)
Definition remove_reference_t (_T : cpp_type) : cpp_type :=
  {| named := named _T; is_const := is_const _T; is_volatile := is_volatile _T;
     reference := no_ref |}.

(** [std::remove_cv_t<_T>]: only top-level qualifiers go, so a reference type
    is left as it is. *)
Definition remove_cv_t (_T : cpp_type) : cpp_type :=
  match reference _T with
  | no_ref => plain (named _T)
  | _ => _T
  end.

(** [std::is_rvalue_reference<_T>::value] *)
Definition is_rvalue_reference (_T : cpp_type) : bool :=
  match reference _T with rvalue_ref => true | _ => false end.

(** [_T&&], with reference collapsing *)
Definition add_rvalue_reference (_T : cpp_type) : cpp_type :=
  match reference _T with
  | no_ref => {| named := named _T; is_const := is_const _T;
                 is_volatile := is_volatile _T; reference := rvalue_ref |}
  | _ => _T
  end.

(** [_T&], with reference collapsing *)
Definition add_lvalue_reference (_T : cpp_type) : cpp_type :=
  {| named := named _T; is_const := is_const _T; is_volatile := is_volatile _T;
     reference := lvalue_ref |}.

(** [const _T]: a qualifier applied to a reference type is dropped. *)
Definition add_const (_T : cpp_type) : cpp_type :=
  match reference _T with
  | no_ref => {| named := named _T; is_const := true;
                 is_volatile := is_volatile _T; reference := no_ref |}
  | _ => _T
  end.

Inductive value_category := lvalue | rvalue.

(** The template argument deduced for a forwarding reference [_T&&] from an
    argument expression of type [t] and category [c]. *)
Definition deduce (t : cpp_type) (c : value_category) : cpp_type :=
  match c with
  | lvalue => add_lvalue_reference t
  | rvalue => remove_reference_t t
  end.

(** The expression [std::forward<_T>(v)] is an lvalue when [_T] is an lvalue
    reference and an xvalue otherwise; this is the template argument a callee
    [f(_U&&)] deduces from it. *)
Definition forwarded (_T : cpp_type) : cpp_type :=
  match reference _T with
  | lvalue_ref => _T
  | _ => remove_reference_t _T
  end.

(** ** What the program's types provide

    An object is held as its object representation, [sizeof] bytes. *)
Record class_info := {
  size : nat;
  trivially_copyable : bool;
  (** [T(args...)]: the representation of the new object *)
  constructor : list (list byte) → list byte;
  (** [T(const T&)]: the representation of the new object *)
  copy_constructor : list byte → list byte;
  (** [T(T&&)]: the new object, and what is left in the source *)
  move_constructor : list byte → list byte * list byte }.

(** ** [std::type_info] *)
Inductive type_info := typeid_void | typeid_of (n : type_name).

Global Instance type_info_eq_dec : EqDecision type_info.
Proof. solve_decision. Defined.

(** [typeid(_T)]: references and top-level cv-qualifiers are ignored. *)
Definition typeid (_T : cpp_type) : type_info := typeid_of (named _T).

(** [type_info::name()] *)
Definition name (ti : type_info) : string :=
  match ti with
  | typeid_void => "void"%string
  | typeid_of n => n
  end.

(** [std::type_index(ti)]; two of them are compared with [==]. *)
Definition type_index (ti : type_info) : type_info := ti.

(** ** [bad_any_cast] *)
Record bad_any_cast := {
  from_ : type_info;
  to_ : type_info;
  reason_ : string }.

Definition make_bad_any_cast (from to : type_info) : bad_any_cast :=
  {| from_ := from; to_ := to;
     reason_ := ("failed conversion using any_cast: stored type " ++ name from
                 ++ ", trying to cast to " ++ name to)%string |}.

Definition stored_type (e : bad_any_cast) : type_info := from_ e.
Definition target_type (e : bad_any_cast) : type_info := to_ e.
Definition what (e : bad_any_cast) : string := reason_ e.

(** ** The administrative function *)

(** [enum class operation_t]; its enumerators are [operation_t.copy] and so
    on, as [operation_t::copy] in the source. *)
Module operation_t.
Inductive t := query_type | copy | move | destroy.
End operation_t.

(** A [function_ptr_t] is the address of one instantiation [operation<_T>].
    The template is [static], so every translation unit that instantiates it
    for [_T] has a function of its own: the address tells the unit too. *)
Record function_ptr_t := {
  translation_unit : nat;
  operation_for : cpp_type }.

Global Instance function_ptr_t_eq_dec : EqDecision function_ptr_t.
Proof. solve_decision. Defined.

(** ** Memory *)

Definition addr := nat.

(** [void*]: null, or the address of an object (for a [static_any], of its
    [buff_], which is its first member). *)
Definition pointer := option addr.
Definition nullptr : pointer := None.

Record static_any := {
  buff_ : list byte;
  function_ : option function_ptr_t }.

Inductive object :=
| any_object (a : static_any)
| plain_object (representation : list byte).

(** The calls of the special member functions of the stored types, in the
    order they happen. *)
Inductive event :=
| constructed (_T : cpp_type) (at_ : addr)
| copy_constructed (_T : cpp_type) (at_ from : addr)
| move_constructed (_T : cpp_type) (at_ from : addr)
| destroyed (_T : cpp_type) (at_ : addr).

Record machine := {
  heap : gmap addr object;
  trace : list event }.

Inductive fault :=
| thrown (e : bad_any_cast)
| assertion_failed
| null_dereference
| invalid_pointer
| out_of_bounds.

Inductive result (A : Type) :=
| ok (a : A) (σ : machine)
| failed (f : fault).
Arguments ok {A} a σ.
Arguments failed {A} f.

Definition M (A : Type) : Type := machine → result A.

Global Instance M_ret : MRet M := λ A a σ, ok a σ.
Global Instance M_bind : MBind M := λ A B k m σ,
  match m σ with
  | ok a σ' => k a σ'
  | failed f => failed f
  end.

Definition fail {A} (f : fault) : M A := λ _, failed f.

(** [assert(b)] *)
Definition assert (b : bool) : M unit :=
  if b then mret tt else fail assertion_failed.

(** [throw e] *)
Definition throw {A} (e : bad_any_cast) : M A := fail (thrown e).

Definition emit (e : event) : M unit := λ σ,
  ok tt {| heap := heap σ; trace := trace σ ++ [e] |}.

Definition bytes_of (o : object) : list byte :=
  match o with
  | any_object a => buff_ a
  | plain_object bs => bs
  end.

Definition with_bytes (o : object) (bs : list byte) : object :=
  match o with
  | any_object a => any_object {| buff_ := bs; function_ := function_ a |}
  | plain_object _ => plain_object bs
  end.

(** [bs] written over the beginning of [region] *)
Definition overwrite (bs region : list byte) : list byte :=
  bs ++ drop (length bs) region.

(** Reading [n] bytes through a pointer. *)
Definition load (p : pointer) (n : nat) : M (list byte) := λ σ,
  match p with
  | None => failed null_dereference
  | Some a =>
      match heap σ !! a with
      | None => failed invalid_pointer
      | Some o =>
          if decide (n ≤ length (bytes_of o))
          then ok (take n (bytes_of o)) σ
          else failed out_of_bounds
      end
  end.

(** Writing the [n] bytes of an object through a pointer. *)
Definition store (p : pointer) (n : nat) (bs : list byte) : M unit := λ σ,
  match p with
  | None => failed null_dereference
  | Some a =>
      match heap σ !! a with
      | None => failed invalid_pointer
      | Some o =>
          if decide (n ≤ length (bytes_of o))
          then ok tt {| heap := <[a := with_bytes o (overwrite (take n bs) (bytes_of o))]> (heap σ);
                        trace := trace σ |}
          else failed out_of_bounds
      end
  end.

(** [std::memcpy(dst, src, n)] *)
Definition memcpy (dst src : pointer) (n : nat) : M unit :=
  bs ← load src n; store dst n bs.

(** ** Template instantiation *)

Inductive template (A : Type) :=
| ill_formed (diagnostic : string)
| instantiated (a : A).
Arguments ill_formed {A} diagnostic.
Arguments instantiated {A} a.

Global Instance template_ret : MRet template := λ A a, instantiated a.
Global Instance template_bind : MBind template := λ A B k m,
  match m with
  | instantiated a => k a
  | ill_formed d => ill_formed d
  end.

(** [static_assert(b, diagnostic)] *)
Definition static_assert (b : bool) (diagnostic : string) : template unit :=
  if b then instantiated tt else ill_formed diagnostic.

(** ** The program, over the types it uses *)

Section program.

Context (types : type_name → class_info).

(** [sizeof(_T)]; for a reference type, the size of the referenced type. *)
Definition sizeof (_T : cpp_type) : nat := size (types (named _T)).

(** [std::is_trivially_copyable<_T>::value]: never for a reference type;
    cv-qualified versions of trivially copyable types are trivially copyable. *)
Definition is_trivially_copyable (_T : cpp_type) : bool :=
  match reference _T with
  | no_ref => trivially_copyable (types (named _T))
  | _ => false
  end.

(** [assert(ptr)] *)
Definition assert_ptr (p : pointer) : M addr :=
  match p with
  | Some a => mret a
  | None => fail assertion_failed
  end.

(** [new(this_ptr) _T(...)], for the representation [bs] that the selected
    constructor of [_T] makes: the object takes [sizeof(_T)] bytes there. *)
Definition placement_new (this_ptr : pointer) (_T : cpp_type) (bs : list byte) : M unit :=
  store this_ptr (sizeof _T) bs.

(** *** namespace detail::static_any *)

Definition operation (_T : cpp_type) (operation : operation_t.t)
    (this_void_ptr other_void_ptr : pointer) : M type_info :=
  let this_ptr := this_void_ptr in
  let other_ptr := other_void_ptr in
  match operation with
  | operation_t.query_type => mret tt
  | operation_t.copy =>
      this ← assert_ptr this_ptr;
      other ← assert_ptr other_ptr;
      v ← load other_ptr (sizeof _T);
      placement_new this_ptr _T (copy_constructor (types (named _T)) v);;
      emit (copy_constructed _T this other)
  | operation_t.move =>
      this ← assert_ptr this_ptr;
      other ← assert_ptr other_ptr;
      v ← load other_ptr (sizeof _T);
      placement_new this_ptr _T (move_constructor (types (named _T)) v).1;;
      store other_ptr (sizeof _T) (move_constructor (types (named _T)) v).2;;
      emit (move_constructed _T this other)
  | operation_t.destroy =>
      this ← assert_ptr this_ptr;
      emit (destroyed _T this)
  end;;
  mret (typeid _T).

(** Instantiated in translation unit [u]. *)
Definition get_function_for_type (u : nat) (_T : cpp_type) : function_ptr_t :=
  {| translation_unit := u;
     operation_for := remove_cv_t (remove_reference_t _T) |}.

(** A call through a [function_ptr_t]. *)
Definition call (f : function_ptr_t) (op : operation_t.t)
    (this_ptr other_ptr : pointer) : M type_info :=
  operation (operation_for f) op this_ptr other_ptr.

(** *** struct static_any<_N>

    [this] is the address of the object; its [buff_] has [_N] bytes. *)

(** Reading the members of [*this]. *)
Definition deref (this : addr) : M static_any := λ σ,
  match heap σ !! this with
  | Some (any_object a) => ok a σ
  | _ => failed invalid_pointer
  end.

Definition read_function_ (this : addr) : M (option function_ptr_t) :=
  a ← deref this; mret (function_ a).

(** [function_ = f] *)
Definition write_function_ (this : addr) (f : option function_ptr_t) : M unit := λ σ,
  match heap σ !! this with
  | Some (any_object a) =>
      ok tt {| heap := <[this := any_object {| buff_ := buff_ a; function_ := f |}]> (heap σ);
               trace := trace σ |}
  | _ => failed invalid_pointer
  end.

(** [function_(op, this_ptr, other_ptr)] *)
Definition call_function_ (this : addr) (op : operation_t.t)
    (this_ptr other_ptr : pointer) : M type_info :=
  f ← read_function_ this;
  match f with
  | Some f => call f op this_ptr other_ptr
  | None => fail null_dereference
  end.

(** [buff_.data()] *)
Definition buff_data (this : addr) : pointer := Some this.

Definition destroy (this : addr) : M unit :=
  f ← read_function_ this;
  match f with
  | Some _ =>
      call_function_ this operation_t.destroy (buff_data this) nullptr;;
      write_function_ this None
  | None => mret tt
  end.

Definition copy_from_another (this another : addr) : M unit :=
  f ← read_function_ another;
  match f with
  | Some _ =>
      write_function_ this f;;
      let other_data := buff_data another in
      call_function_ this operation_t.copy (buff_data this) other_data;;
      mret tt
  | None => mret tt
  end.

(** The two overloads of [call_function<Ref>], told apart by [enable_if]. *)
Definition call_function_rvalue (this : addr) (this_void_ptr other_void_ptr : pointer) : M unit :=
  call_function_ this operation_t.move this_void_ptr other_void_ptr;; mret tt.

Definition call_function_lvalue (this : addr) (this_void_ptr other_void_ptr : pointer) : M unit :=
  call_function_ this operation_t.copy this_void_ptr other_void_ptr;; mret tt.

Definition call_function (Ref : cpp_type) : addr → pointer → pointer → M unit :=
  if is_rvalue_reference Ref then call_function_rvalue else call_function_lvalue.

Definition capacity (_N : nat) : nat := _N.

Definition copy_or_move (_N u : nat) (_T : cpp_type) : template (addr → addr → M unit) :=
  static_assert (bool_decide (sizeof _T ≤ capacity _N))
    "_T is too big to be copied to static_any";;
  mret (λ this t,
    f ← read_function_ this;
    assert (bool_decide (f = None));;
    write_function_ this (Some (get_function_for_type u _T));;
    let non_const_t : pointer := Some t in
    call_function (add_rvalue_reference _T) this (buff_data this) non_const_t).

(** Whether a parameter of type [P&] binds an lvalue of type [A]. *)
Definition binds_lvalue (P A : cpp_type) : bool :=
  bool_decide (named P = named A)
  && implb (is_const A) (is_const P)
  && implb (is_volatile A) (is_volatile P).

(** [std::forward<_T>(t)] for a named parameter [t] of object type [A]: an
    lvalue selects the overload taking [remove_reference_t<_T>&], which has to
    bind it. The result is the template argument that a callee [f(_U&&)]
    deduces from the forwarded expression. *)
Definition std_forward (_T A : cpp_type) : template cpp_type :=
  static_assert (binds_lvalue (remove_reference_t _T) A)
    "no matching function for call to forward";;
  mret (forwarded _T).

(** [static_any() = default]: the default member initializer of [function_];
    [buff_] is left as the storage has it. *)
Definition static_any_default (this : addr) : M unit :=
  write_function_ this None.

(** [~static_any()] *)
Definition static_any_destructor (this : addr) : M unit :=
  destroy this.

(** [template<typename _T> static_any(_T&& v)] *)
Definition static_any_value (_N u : nat) (_T : cpp_type) : template (addr → addr → M unit) :=
  _U ← std_forward _T (remove_reference_t _T);
  copy_or_move_U ← copy_or_move _N u _U;
  mret (λ this v, static_any_default this;; copy_or_move_U this v).

(** [static_any(const static_any& another)] and
    [template<std::size_t _M> static_any(const static_any<_M>& another)] *)
Definition static_any_const_ref (this another : addr) : M unit :=
  static_any_default this;; copy_from_another this another.

(** [static_any(static_any& another)] and
    [template<std::size_t _M> static_any(static_any<_M>& another)] *)
Definition static_any_ref (this another : addr) : M unit :=
  static_any_default this;; copy_from_another this another.

(** [static_any(static_any&& another)] and
    [template<std::size_t _M> static_any(static_any<_M>&& another)] *)
Definition static_any_rvalue_ref (this another : addr) : M unit :=
  static_any_default this;; copy_from_another this another.

(** [operator=(const static_any& another)] and
    [template<std::size_t _M> operator=(const static_any<_M>& another)];
    the result is [*this]. *)
Definition assign_const_ref (this another : addr) : M addr :=
  destroy this;; copy_from_another this another;; mret this.

(** [operator=(static_any& another)] and
    [template<std::size_t _M> operator=(static_any<_M>& another)] *)
Definition assign_ref (this another : addr) : M addr :=
  destroy this;; copy_from_another this another;; mret this.

(** [operator=(static_any&& another)] and
    [template<std::size_t _M> operator=(static_any<_M>&& another)] *)
Definition assign_rvalue_ref (this another : addr) : M addr :=
  destroy this;; copy_from_another this another;; mret this.

(** [template <typename _T> operator=(const _T& t)] *)
Definition assign_const_value (_N u : nat) (_T : cpp_type) : template (addr → addr → M addr) :=
  _U ← std_forward _T (remove_reference_t (add_const _T));
  copy_or_move_U ← copy_or_move _N u _U;
  mret (λ this t, destroy this;; copy_or_move_U this t;; mret this).

(** [template <typename _T> operator=(_T&& t)] *)
Definition assign_value (_N u : nat) (_T : cpp_type) : template (addr → addr → M addr) :=
  _U ← std_forward _T (remove_reference_t _T);
  copy_or_move_U ← copy_or_move _N u _U;
  mret (λ this t, destroy this;; copy_or_move_U this t;; mret this).

Definition reset (this : addr) : M unit := destroy this.

Definition has (u : nat) (_T : cpp_type) (this : addr) : M bool :=
  f ← read_function_ this;
  if decide (f = Some (get_function_for_type u _T)) then mret true
  else match f with
       | Some _ =>
           ti ← call_function_ this operation_t.query_type nullptr nullptr;
           mret (bool_decide (type_index (typeid _T) = type_index ti))
       | None => mret false
       end.

Definition empty (this : addr) : M bool :=
  f ← read_function_ this; mret (bool_decide (f = None)).

Definition type (this : addr) : M type_info :=
  e ← empty this;
  if (e : bool) then mret typeid_void
  else call_function_ this operation_t.query_type (Some this) nullptr.

(** [template<typename _T, typename... Args> emplace(Args&&... args)]; a
    new-expression cannot make an object of reference type. *)
Definition emplace (u : nat) (_T : cpp_type) : template (addr → list (list byte) → M unit) :=
  static_assert (bool_decide (reference _T = no_ref))
    "new cannot be applied to a reference type";;
  mret (λ this args,
    destroy this;;
    placement_new (buff_data this) _T (constructor (types (named _T)) args);;
    emit (constructed _T this);;
    write_function_ this (Some (get_function_for_type u _T))).

(** [as<_T>()], returning [_T*]: there is no pointer to a reference. *)
Definition as_ (_T : cpp_type) : template (addr → M pointer) :=
  static_assert (bool_decide (reference _T = no_ref))
    "forming pointer to reference type";;
  mret (λ this, mret (buff_data this)).

(** *** any_cast and get *)

(** [a->] and [*p]: the object a pointer refers to. *)
Definition indirection (p : pointer) : M addr :=
  match p with
  | Some a => mret a
  | None => fail null_dereference
  end.

(** [template <typename _ValueT, std::size_t _S>
     _ValueT* any_cast(static_any<_S>* a)] *)
Definition any_cast_ptr (u : nat) (_ValueT : cpp_type) : template (pointer → M pointer) :=
  as_ValueT ← as_ _ValueT;
  mret (λ a,
    this ← indirection a;
    h ← has u _ValueT this;
    if negb h then mret nullptr
    else as_ValueT this).

(** [const _ValueT* any_cast(const static_any<_S>* a)] *)
Definition any_cast_const_ptr (u : nat) (_ValueT : cpp_type) : template (pointer → M pointer) :=
  any_cast_ptr u (add_const _ValueT).

(** [template <typename _ValueT, std::size_t _S>
     _ValueT& any_cast(static_any<_S>& a)]; the reference it returns is the
    address of the object referred to. *)
Definition any_cast_ref (u : nat) (_ValueT : cpp_type) : template (addr → M addr) :=
  as_ValueT ← as_ _ValueT;
  mret (λ a,
    h ← has u _ValueT a;
    if negb h then
      from ← type a;
      throw (make_bad_any_cast from (typeid _ValueT))
    else
      p ← as_ValueT a;
      indirection p).

(** [const _ValueT& any_cast(const static_any<_S>& a)] *)
Definition any_cast_const_ref (u : nat) (_ValueT : cpp_type) : template (addr → M addr) :=
  any_cast_ref u (add_const _ValueT).

(** [const _T& static_any<_S>::get() const] *)
Definition get_const (u : nat) (_T : cpp_type) : template (addr → M addr) :=
  any_cast_const_ref u _T.

(** [_T& static_any<_S>::get()] *)
Definition get (u : nat) (_T : cpp_type) : template (addr → M addr) :=
  any_cast_ref u _T.

(** Reading the object a reference of type [_T&] refers to. *)
Definition value_of (_T : cpp_type) (r : addr) : M (list byte) :=
  load (Some r) (sizeof _T).

(** *** struct static_any_t<_N>

    Its only member is [buff_]: the object is the [_N] bytes themselves. *)

Definition static_any_t_copy (_N : nat) (_ValueT : cpp_type) : template (addr → addr → M unit) :=
  static_assert (is_trivially_copyable _ValueT)
    "_ValueT is not trivially copyable";;
  static_assert (bool_decide (sizeof _ValueT ≤ capacity _N))
    "_ValueT is too big to be copied to static_any";;
  mret (λ this t, memcpy (buff_data this) (Some t) (sizeof _ValueT)).

(** [static_any_t() = default] *)
Definition static_any_t_default (this : addr) : M unit := mret tt.

(** [static_any_t(const static_any_t&) = default] *)
Definition static_any_t_const_ref (_N : nat) (this another : addr) : M unit :=
  memcpy (buff_data this) (buff_data another) _N.

(** [template <typename _ValueT> static_any_t(_ValueT&& t)] *)
Definition static_any_t_value (_N : nat) (_ValueT : cpp_type) : template (addr → addr → M unit) :=
  _U ← std_forward _ValueT (remove_reference_t _ValueT);
  copy_U ← static_any_t_copy _N _U;
  mret (λ this t, copy_U this t).

(** [template <typename _ValueT> static_any_t& operator=(_ValueT&& t)] *)
Definition static_any_t_assign (_N : nat) (_ValueT : cpp_type) : template (addr → addr → M addr) :=
  _U ← std_forward _ValueT (remove_reference_t _ValueT);
  copy_U ← static_any_t_copy _N _U;
  mret (λ this t, copy_U this t;; mret this).

(** [template <typename _ValueT> _ValueT& get()], and the [const] one: the
    buffer reinterpreted, through a [_ValueT*]. *)
Definition static_any_t_get (_ValueT : cpp_type) : template (addr → M addr) :=
  static_assert (bool_decide (reference _ValueT = no_ref))
    "forming pointer to reference type";;
  mret (λ this, indirection (buff_data this)).

Definition static_any_t_get_const (_ValueT : cpp_type) : template (addr → M addr) :=
  static_any_t_get (add_const _ValueT).

End program.

(** ** A small program to run the definitions on *)

Definition scalar (n : nat) : class_info :=
  {| size := n; trivially_copyable := true;
     constructor := λ args, resize n x00 (concat args);
     copy_constructor := λ v, v;
     move_constructor := λ v, (v, v) |}.

(** A class that owns a resource: not trivially copyable, and a move leaves
    the source zeroed. *)
Definition owner (n : nat) : class_info :=
  {| size := n; trivially_copyable := false;
     constructor := λ args, resize n x00 (concat args);
     copy_constructor := λ v, v;
     move_constructor := λ v, (v, replicate n x00) |}.

Definition sample_types (n : type_name) : class_info :=
  if String.eqb n "int" then scalar 4
  else if String.eqb n "double" then scalar 8
  else if String.eqb n "std::string" then owner 32
  else scalar 1.

Definition int : cpp_type := plain "int".
Definition double : cpp_type := plain "double".
Definition std_string : cpp_type := plain "std::string".

(** Storage for a [static_any<_N>] or a [static_any_t<_N>], not yet
    initialised. *)
Definition any_storage (_N : nat) : object :=
  any_object {| buff_ := replicate _N x00; function_ := None |}.

Definition int_42 : list byte := [x2a; x00; x00; x00].
Definition double_3_5 : list byte := [x00; x00; x00; x00; x00; x00; x0c; x40].
Definition double_1_0 : list byte := [x00; x00; x00; x00; x00; x00; xf0; x3f].
(** A [static_any<16>] that holds the [int] 42, stored from translation
    unit 0. *)
Definition sample_any : static_any :=
  {| buff_ := int_42 ++ replicate 12 x00;
     function_ := Some {| translation_unit := 0; operation_for := int |} |}.

(** Objects 1, 3, 5 and 7 are a [static_any<16>] and the storage of a
    [static_any<4>], of a [static_any<24>] and of a [static_any<16>]; 2 and 4
    are an [int] and a [double]; 6 is a [static_any_t<16>]. *)
Definition sample_machine : machine :=
  {| heap := {[ 1 := any_object sample_any;
                2 := plain_object int_42;
                3 := any_storage 4;
                4 := plain_object double_3_5;
                5 := any_storage 24;
                6 := plain_object (replicate 16 x00);
                7 := any_storage 16 ]};
     trace := [] |}.

(** A [static_any<16>] is assigned the [int] 42, asked for it, and then
    given a [double] by [emplace]; the answers of [has<int>()] and
    [get<int>()] before, and of [has<int>()], [has<double>()] and
    [get<double>()] after. *)
Definition assign_then_emplace : template (M (bool * list byte * bool * bool * list byte)) :=
  assign_int ← assign_value sample_types 16 0 (deduce int rvalue);
  get_int ← get sample_types 0 int;
  emplace_double ← emplace sample_types 0 double;
  get_double ← get sample_types 0 double;
  mret (
    static_any_default 7;;
    assign_int 7 2;;
    has_int ← has sample_types 0 int 7;
    r ← get_int 7;
    i ← value_of sample_types int r;
    emplace_double 7 [double_3_5];;
    has_int' ← has sample_types 0 int 7;
    has_double ← has sample_types 0 double 7;
    r' ← get_double 7;
    d ← value_of sample_types double r';
    mret (has_int, i, has_int', has_double, d)).

(** A [static_any<16>] holding a [double] is copied into a [static_any<24>]
    and then given another value; what the copy and the source hold. *)
Definition copy_across_capacities : template (M (list byte * list byte)) :=
  emplace_double ← emplace sample_types 0 double;
  get_double ← get sample_types 1 double;
  mret (
    static_any_default 7;;
    emplace_double 7 [double_3_5];;
    static_any_const_ref sample_types 5 7;;
    emplace_double 7 [double_1_0];;
    r ← get_double 5;
    copied ← value_of sample_types double r;
    r' ← get_double 7;
    source ← value_of sample_types double r';
    mret (copied, source)).

(** A [static_any<16>] that holds the [double] 3.5. *)
Definition sample_double_any : static_any :=
  {| buff_ := double_3_5 ++ replicate 8 x00;
     function_ := Some {| translation_unit := 0; operation_for := double |} |}.

(** The sample objects and four more: 8, a [static_any<16>] that holds a
    [double]; 9, a [static_any_t<16>] that holds the [int] 42; 10, a
    [std::string]; 11, the storage of a [static_any<32>]. *)
Definition second_machine : machine :=
  {| heap := <[8 := any_object sample_double_any]>
               (<[9 := plain_object (int_42 ++ replicate 12 x00)]>
                  (<[10 := plain_object (replicate 32 x01)]>
                     (<[11 := any_storage 32]> (heap sample_machine))));
     trace := [] |}.

(** ** Vocabulary for the statements

    What [has<_T>()] and [type()] answer, read off the members of a
    container; [has_eq] and [type_eq] below prove that the code computes
    exactly these. *)
Definition holds (_T : cpp_type) (a : static_any) : bool :=
  match function_ a with
  | Some f => bool_decide (named (operation_for f) = named _T)
  | None => false
  end.
Definition held_type (a : static_any) : type_info :=
  match function_ a with
  | Some f => typeid (operation_for f)
  | None => typeid_void
  end.

(** ** Vocabulary for what the mutating members keep *)

(** Two objects of the same kind and size, with the same [function_] if they
    are containers: they differ in their bytes only. *)
Definition same_layout_object (o o' : object) : Prop :=
  match o, o' with
  | any_object c, any_object c' =>
      length (buff_ c') = length (buff_ c) ∧ function_ c' = function_ c
  | plain_object bs, plain_object bs' => length bs' = length bs
  | _, _ => False
  end.

Definition same_layout (σ σ' : machine) : Prop :=
  ∀ a, option_Forall2 same_layout_object (heap σ !! a) (heap σ' !! a).






(** * Properties *)

Ltac munfold := unfold mbind, mret, M_bind, M_ret, fail, throw, emit in *.

(** ** Running a sequence *)

Lemma bind_ok {A B} (m : M A) (k : A → M B) σ a σ' :
  m σ = ok a σ' → (m ≫= k) σ = k a σ'.
Proof. intros H. unfold mbind, M_bind. by rewrite H. Qed.

Lemma bind_failed {A B} (m : M A) (k : A → M B) σ f :
  m σ = failed f → (m ≫= k) σ = failed f.
Proof. intros H. unfold mbind, M_bind. by rewrite H. Qed.

(** ** Type traits *)

Lemma normal_form _T : remove_cv_t (remove_reference_t _T) = plain (named _T).
Proof. done. Qed.

Lemma forwarded_deduce _T c : forwarded (deduce _T c) = deduce _T c.
Proof. by destruct c. Qed.

Lemma binds_lvalue_refl P : binds_lvalue P P = true.
Proof.
  unfold binds_lvalue. rewrite bool_decide_eq_true_2 by done.
  by destruct (is_const P), (is_volatile P).
Qed.

(** A function parameter [_T&& v] can always be forwarded. *)
Lemma std_forward_parameter _T :
  std_forward _T (remove_reference_t _T) = instantiated (forwarded _T).
Proof.
  unfold std_forward.
  change (remove_reference_t _T) with (remove_reference_t (remove_reference_t _T)) at 1.
  by rewrite binds_lvalue_refl.
Qed.

(** ** Memory *)

Lemma length_overwrite bs region :
  length bs ≤ length region → length (overwrite bs region) = length region.
Proof. intros H. unfold overwrite. rewrite length_app, length_drop. lia. Qed.

Lemma take_overwrite bs region : take (length bs) (overwrite bs region) = bs.
Proof. unfold overwrite. by rewrite take_app_length. Qed.

Lemma load_eq a o n σ :
  heap σ !! a = Some o → n ≤ length (bytes_of o) →
  load (Some a) n σ = ok (take n (bytes_of o)) σ.
Proof. intros H Hn. unfold load. rewrite H. by rewrite decide_True. Qed.

Lemma store_eq a o n bs σ :
  heap σ !! a = Some o → n ≤ length (bytes_of o) →
  store (Some a) n bs σ =
    ok tt {| heap := <[a := with_bytes o (overwrite (take n bs) (bytes_of o))]> (heap σ);
             trace := trace σ |}.
Proof. intros H Hn. unfold store. rewrite H. by rewrite decide_True. Qed.

Lemma read_function__eq this a σ :
  heap σ !! this = Some (any_object a) → read_function_ this σ = ok (function_ a) σ.
Proof. intros H. unfold read_function_, deref. munfold. by rewrite H. Qed.

Lemma write_function__eq this a f σ :
  heap σ !! this = Some (any_object a) →
  write_function_ this f σ =
    ok tt {| heap := <[this := any_object {| buff_ := buff_ a; function_ := f |}]> (heap σ);
             trace := trace σ |}.
Proof. intros H. unfold write_function_. by rewrite H. Qed.

Lemma holds_iff _T a :
  holds _T a = true ↔ ∃ f, function_ a = Some f ∧ named (operation_for f) = named _T.
Proof.
  unfold holds. destruct (function_ a) as [f|].
  - rewrite bool_decide_eq_true. split.
    + intros Hn. by exists f.
    + by intros (g & [= <-] & Hn).
  - split; [done|]. by intros (g & Hg & _).
Qed.

Section correctness.

Context (types : type_name → class_info).

(** ** The administrative function *)

Lemma query_type_eq f p q σ :
  call types f operation_t.query_type p q σ = ok (typeid (operation_for f)) σ.
Proof. done. Qed.

Lemma call_function__eq this a f op p q σ :
  heap σ !! this = Some (any_object a) → function_ a = Some f →
  call_function_ types this op p q σ = call types f op p q σ.
Proof.
  intros H Hf. unfold call_function_.
  erewrite bind_ok by by apply read_function__eq. by rewrite Hf.
Qed.

(** What [operation<_T>] does for [operation_t::copy], on two objects that
    have room for a [_T]. *)
Lemma operation_copy_eq _T this other d o σ :
  heap σ !! this = Some d → heap σ !! other = Some o →
  sizeof types _T ≤ length (bytes_of d) → sizeof types _T ≤ length (bytes_of o) →
  operation types _T operation_t.copy (Some this) (Some other) σ =
    ok (typeid _T)
       {| heap := <[this := with_bytes d
                     (overwrite
                        (take (sizeof types _T)
                           (copy_constructor (types (named _T))
                              (take (sizeof types _T) (bytes_of o))))
                        (bytes_of d))]> (heap σ);
          trace := trace σ ++ [copy_constructed _T this other] |}.
Proof.
  intros Hd Ho Hnd Hno. unfold operation, placement_new, assert_ptr.
  munfold. cbn. rewrite Ho, decide_True by done. rewrite Hd, decide_True by done.
  done.
Qed.

(** And for [operation_t::move]: the source is left as the move constructor
    leaves it. *)
Lemma operation_move_eq _T this other d o σ :
  this ≠ other →
  heap σ !! this = Some d → heap σ !! other = Some o →
  sizeof types _T ≤ length (bytes_of d) → sizeof types _T ≤ length (bytes_of o) →
  operation types _T operation_t.move (Some this) (Some other) σ =
    let v := take (sizeof types _T) (bytes_of o) in
    ok (typeid _T)
       {| heap := <[other := with_bytes o
                      (overwrite
                         (take (sizeof types _T) (move_constructor (types (named _T)) v).2)
                         (bytes_of o))]>
                  (<[this := with_bytes d
                      (overwrite
                         (take (sizeof types _T) (move_constructor (types (named _T)) v).1)
                         (bytes_of d))]> (heap σ));
          trace := trace σ ++ [move_constructed _T this other] |}.
Proof.
  intros Hne Hd Ho Hnd Hno. unfold operation, placement_new, assert_ptr.
  munfold. cbn. rewrite Ho, decide_True by done. rewrite Hd, decide_True by done.
  cbn. rewrite lookup_insert_ne, Ho, decide_True by done. done.
Qed.

(** ** Queries *)

(** The fast comparison of function addresses and the slower comparison of
    type identities agree: [has<_T>()] holds exactly when a value is held and
    its type has the name of [_T], from whatever translation unit it is
    asked. *)
Lemma has_eq u _T this a σ :
  heap σ !! this = Some (any_object a) →
  has types u _T this σ = ok (holds _T a) σ.
Proof.
  intros H. unfold has, holds.
  erewrite bind_ok by by apply read_function__eq.
  case_decide as Hf.
  - rewrite Hf. cbn. by rewrite bool_decide_eq_true_2.
  - destruct (function_ a) as [f|] eqn:Ef; [|done].
    erewrite bind_ok by (erewrite call_function__eq by done; apply query_type_eq).
    unfold type_index, typeid. munfold. f_equal.
    apply bool_decide_ext. split; [by intros [= ->]|by intros ->].
Qed.

Lemma empty_eq this a σ :
  heap σ !! this = Some (any_object a) →
  empty this σ = ok (bool_decide (function_ a = None)) σ.
Proof.
  intros H. unfold empty. by erewrite bind_ok by by apply read_function__eq.
Qed.

Lemma type_eq this a σ :
  heap σ !! this = Some (any_object a) →
  type types this σ = ok (held_type a) σ.
Proof.
  intros H. unfold type, held_type.
  erewrite bind_ok by by apply empty_eq.
  destruct (function_ a) as [f|] eqn:Ef; cbn; [|done].
  by erewrite call_function__eq.
Qed.

(** C7: a freshly default-constructed [static_any<N>] reports
    [empty() = true], [has<T>() = false] for every type [T] (asked from any
    translation unit), and [type()] returns [typeid(void)]. *)
Theorem default_constructed_is_empty this storage σ :
  heap σ !! this = Some (any_object storage) →
  ∃ σ', static_any_default this σ = ok tt σ'
      ∧ empty this σ' = ok true σ'
      ∧ (∀ u _T, has types u _T this σ' = ok false σ')
      ∧ type types this σ' = ok typeid_void σ'.
Proof.
  intros H. eexists. split; [by apply write_function__eq|].
  set (σ' := {| heap := _ |}).
  assert (heap σ' !! this
          = Some (any_object {| buff_ := buff_ storage; function_ := None |})) as H'
    by apply lookup_insert_eq.
  split; [|split].
  - by rewrite (empty_eq _ _ _ H').
  - intros u _T. by rewrite (has_eq _ _ _ _ _ H').
  - by rewrite (type_eq _ _ _ H').
Qed.

(** C9: the stored and the queried type are stripped of references and
    cv-qualifiers before the administrative function is selected: a value
    stored as a [_T] of any value category selects the function of [_T], so
    do [const _T] and [_T&], and on a container that holds a [_T] the
    queries [has<_T>()], [has<const _T>()] and [has<_T&>()] all answer
    true. *)
Theorem has_ignores_cv_and_reference u u' _T c this a σ :
  heap σ !! this = Some (any_object a) →
  function_ a = Some (get_function_for_type u' (deduce _T c)) →
  get_function_for_type u' (deduce _T c) = get_function_for_type u' _T
  ∧ get_function_for_type u (add_const _T) = get_function_for_type u _T
  ∧ get_function_for_type u (add_lvalue_reference _T) = get_function_for_type u _T
  ∧ has types u _T this σ = ok true σ
  ∧ has types u (add_const _T) this σ = ok true σ
  ∧ has types u (add_lvalue_reference _T) this σ = ok true σ.
Proof.
  intros H Hf.
  assert (∀ _U, named _U = named _T → has types u _U this σ = ok true σ) as Hhas.
  { intros _U HU. rewrite (has_eq _ _ _ _ _ H). f_equal.
    apply holds_iff. eexists. split; [done|]. by destruct c. }
  split; [by destruct c|].
  split; [by unfold add_const; destruct (reference _T)|].
  split; [done|].
  split; [by apply Hhas|].
  split; apply Hhas; [by unfold add_const; destruct (reference _T)|done].
Qed.

(** ** Destruction and transfer between containers *)

Lemma destroy_eq this a σ :
  heap σ !! this = Some (any_object a) →
  destroy types this σ =
    match function_ a with
    | Some f =>
        ok tt {| heap := <[this := any_object {| buff_ := buff_ a; function_ := None |}]> (heap σ);
                 trace := trace σ ++ [destroyed (operation_for f) this] |}
    | None => ok tt σ
    end.
Proof.
  intros H. unfold destroy.
  erewrite bind_ok by by apply read_function__eq.
  destruct (function_ a) as [f|] eqn:Hf; [|done].
  erewrite bind_ok by (by erewrite call_function__eq).
  by erewrite write_function__eq.
Qed.

Lemma destroy_held this a g σ :
  heap σ !! this = Some (any_object a) → function_ a = Some g →
  destroy types this σ =
    ok tt {| heap := <[this := any_object {| buff_ := buff_ a; function_ := None |}]> (heap σ);
             trace := trace σ ++ [destroyed (operation_for g) this] |}.
Proof. intros H Hg. rewrite (destroy_eq _ _ _ H). by rewrite Hg. Qed.

Lemma destroy_empty this a σ :
  heap σ !! this = Some (any_object a) → function_ a = None →
  destroy types this σ = ok tt σ.
Proof. intros H Hg. rewrite (destroy_eq _ _ _ H). by rewrite Hg. Qed.

(** After [reset()] the container is empty. *)
Lemma reset_then_empty this a σ :
  heap σ !! this = Some (any_object a) →
  ∃ σ', reset types this σ = ok tt σ' ∧ empty this σ' = ok true σ'.
Proof.
  intros H. unfold reset. rewrite (destroy_eq _ _ _ H).
  destruct (function_ a) as [g|] eqn:Hg; eexists; (split; [done|]).
  - by erewrite empty_eq by apply lookup_insert_eq.
  - rewrite (empty_eq _ _ _ H). by rewrite Hg.
Qed.


Lemma copy_from_another_empty this another src σ :
  heap σ !! another = Some (any_object src) → function_ src = None →
  copy_from_another types this another σ = ok tt σ.
Proof.
  intros Hsrc Hf. unfold copy_from_another.
  erewrite bind_ok by by apply read_function__eq. by rewrite Hf.
Qed.

Lemma copy_from_another_eq this another dst src f σ :
  this ≠ another →
  heap σ !! this = Some (any_object dst) →
  heap σ !! another = Some (any_object src) →
  function_ src = Some f →
  sizeof types (operation_for f) ≤ length (buff_ src) →
  sizeof types (operation_for f) ≤ length (buff_ dst) →
  copy_from_another types this another σ =
    ok tt {| heap := <[this := any_object
                         {| buff_ := overwrite
                              (take (sizeof types (operation_for f))
                                 (copy_constructor (types (named (operation_for f)))
                                    (take (sizeof types (operation_for f)) (buff_ src))))
                              (buff_ dst);
                            function_ := Some f |}]> (heap σ);
             trace := trace σ ++ [copy_constructed (operation_for f) this another] |}.
Proof.
  intros Hne Hdst Hsrc Hf Hs Hd. unfold copy_from_another.
  erewrite bind_ok by by apply read_function__eq. rewrite Hf.
  erewrite bind_ok by by apply write_function__eq.
  erewrite bind_ok.
  2: { erewrite call_function__eq; [|apply lookup_insert_eq|reflexivity].
       unfold call, buff_data.
       eapply operation_copy_eq; cbn;
         [apply lookup_insert_eq|by rewrite lookup_insert_ne|done..]. }
  cbn. by rewrite insert_insert_eq.
Qed.

(** The transfer is not checked against the capacity of the destination:
    a held value that does not fit there is written past its buffer. *)
Lemma copy_from_another_overflow this another dst src f σ :
  heap σ !! this = Some (any_object dst) →
  heap σ !! another = Some (any_object src) →
  function_ src = Some f →
  sizeof types (operation_for f) ≤ length (buff_ src) →
  length (buff_ dst) < sizeof types (operation_for f) →
  copy_from_another types this another σ = failed out_of_bounds.
Proof.
  intros Hdst Hsrc Hf Hs Hd.
  assert (this ≠ another) as Hne.
  { intros ->. rewrite Hdst in Hsrc. injection Hsrc as ->. lia. }
  unfold copy_from_another.
  erewrite bind_ok by by apply read_function__eq. rewrite Hf.
  erewrite bind_ok by by apply write_function__eq.
  apply bind_failed.
  erewrite call_function__eq; [|apply lookup_insert_eq|reflexivity].
  unfold call, operation, buff_data, placement_new, assert_ptr, load, store.
  munfold. cbn.
  rewrite lookup_insert_ne, Hsrc by done. cbn. rewrite decide_True by done.
  cbn [heap]. rewrite lookup_insert_eq. cbn. rewrite decide_False by lia. done.
Qed.

(** C1: constructing or assigning from another, non-empty container through
    the move constructor or the move assignment replicates the held value with
    the copy operation of the held type (the trace gains one
    [copy_constructed] and no [move_constructed]), and the source container,
    its [function_] and its bytes, is afterwards what it was. The held value
    has to fit the destination, which the code does not check
    ([copy_from_another_overflow]). *)
Theorem move_from_another_is_a_copy this another dst src f σ :
  this ≠ another →
  heap σ !! this = Some (any_object dst) →
  heap σ !! another = Some (any_object src) →
  function_ src = Some f →
  sizeof types (operation_for f) ≤ length (buff_ src) →
  sizeof types (operation_for f) ≤ length (buff_ dst) →
  let _T := operation_for f in
  let replica :=
    take (sizeof types _T)
      (copy_constructor (types (named _T)) (take (sizeof types _T) (buff_ src))) in
  let result :=
    <[this := any_object {| buff_ := overwrite replica (buff_ dst); function_ := Some f |}]>
      (heap σ) in
  static_any_rvalue_ref types this another σ =
    ok tt {| heap := result;
             trace := trace σ ++ [copy_constructed _T this another] |}
  ∧ assign_rvalue_ref types this another σ =
    ok this {| heap := result;
               trace := trace σ
                 ++ match function_ dst with
                    | Some g => [destroyed (operation_for g) this]
                    | None => []
                    end
                 ++ [copy_constructed _T this another] |}
  ∧ result !! another = Some (any_object src).
Proof.
  intros Hne Hdst Hsrc Hf Hs Hd _T replica result. split; [|split].
  - unfold static_any_rvalue_ref, static_any_default.
    erewrite bind_ok by by apply write_function__eq.
    erewrite copy_from_another_eq;
      [|done|apply lookup_insert_eq|by cbn; rewrite lookup_insert_ne|done..].
    cbn. by rewrite insert_insert_eq.
  - unfold assign_rvalue_ref.
    destruct (function_ dst) as [g|] eqn:Hg.
    + erewrite bind_ok by by eapply destroy_held.
      erewrite bind_ok.
      2: { eapply copy_from_another_eq;
             [done|apply lookup_insert_eq|by cbn; rewrite lookup_insert_ne|done..]. }
      cbn. by rewrite insert_insert_eq, <-(assoc_L (++)).
    + erewrite bind_ok by by eapply destroy_empty.
      by erewrite bind_ok by by apply copy_from_another_eq.
  - unfold result. by rewrite lookup_insert_ne.
Qed.

(** Assigning a container to itself destroys the value first and then finds
    nothing to copy. *)
Lemma self_assignment_empties this a σ :
  heap σ !! this = Some (any_object a) →
  assign_rvalue_ref types this this σ =
    ok this {| heap := <[this := any_object {| buff_ := buff_ a; function_ := None |}]> (heap σ);
               trace := trace σ
                 ++ match function_ a with
                    | Some g => [destroyed (operation_for g) this]
                    | None => []
                    end |}.
Proof.
  intros H. unfold assign_rvalue_ref.
  destruct (function_ a) as [g|] eqn:Hg.
  - erewrite bind_ok by by eapply destroy_held.
    erewrite bind_ok.
    2: { eapply copy_from_another_empty; [apply lookup_insert_eq|done]. }
    done.
  - erewrite bind_ok by by eapply destroy_empty.
    erewrite bind_ok by by eapply copy_from_another_empty.
    cbn. rewrite app_nil_r. destruct σ as [h t]; cbn in *. f_equal. f_equal.
    symmetry. apply insert_id. rewrite H. by destruct a; cbn in *; subst.
Qed.


(** ** Storing a value *)

Lemma copy_or_move_fits _N u _T :
  sizeof types _T ≤ _N →
  copy_or_move types _N u _T = instantiated (λ this t,
    f ← read_function_ this;
    assert (bool_decide (f = None));;
    write_function_ this (Some (get_function_for_type u _T));;
    call_function types (add_rvalue_reference _T) this (buff_data this) (Some t)).
Proof.
  intros H. unfold copy_or_move, capacity. by rewrite bool_decide_eq_true_2.
Qed.

Lemma copy_or_move_too_big _N u _T :
  _N < sizeof types _T →
  copy_or_move types _N u _T = ill_formed "_T is too big to be copied to static_any".
Proof.
  intros H. unfold copy_or_move, capacity. rewrite bool_decide_eq_false_2; [done|lia].
Qed.

Lemma call_function_of_lvalue _T :
  reference _T = lvalue_ref →
  call_function types (add_rvalue_reference _T) = call_function_lvalue types.
Proof.
  intros H. unfold call_function, add_rvalue_reference, is_rvalue_reference.
  by rewrite !H.
Qed.

Lemma call_function_of_rvalue _T :
  reference _T ≠ lvalue_ref →
  call_function types (add_rvalue_reference _T) = call_function_rvalue types.
Proof.
  intros H. unfold call_function, add_rvalue_reference, is_rvalue_reference.
  by destruct (reference _T) eqn:E; rewrite ?E.
Qed.

(** Given an lvalue, [copy_or_move] copy-constructs. *)
Lemma copy_or_move_lvalue _N u _T body this t a o σ :
  copy_or_move types _N u _T = instantiated body →
  reference _T = lvalue_ref →
  this ≠ t →
  heap σ !! this = Some (any_object a) → function_ a = None →
  heap σ !! t = Some o →
  sizeof types _T ≤ length (buff_ a) → sizeof types _T ≤ length (bytes_of o) →
  body this t σ =
    ok tt {| heap := <[this := any_object
                         {| buff_ := overwrite
                              (take (sizeof types _T)
                                 (copy_constructor (types (named _T))
                                    (take (sizeof types _T) (bytes_of o))))
                              (buff_ a);
                            function_ := Some (get_function_for_type u _T) |}]> (heap σ);
             trace := trace σ ++ [copy_constructed (plain (named _T)) this t] |}.
Proof.
  intros Hbody Href Hne Hthis Hf Ht Ha Ho.
  destruct (decide (sizeof types _T ≤ _N)) as [Hfit|Hbig];
    [|by rewrite copy_or_move_too_big in Hbody by lia].
  rewrite copy_or_move_fits in Hbody by done. injection Hbody as <-. cbn beta.
  erewrite bind_ok by by apply read_function__eq. cbn beta. rewrite Hf.
  erewrite bind_ok by reflexivity.
  erewrite bind_ok by by apply write_function__eq.
  rewrite call_function_of_lvalue by done. unfold call_function_lvalue.
  erewrite bind_ok.
  2: { erewrite call_function__eq; [|apply lookup_insert_eq|reflexivity].
       eapply operation_copy_eq; cbn;
         [apply lookup_insert_eq|by rewrite lookup_insert_ne|done..]. }
  cbn. by rewrite insert_insert_eq.
Qed.

(** Given an rvalue, it move-constructs, and the argument is left as the
    move constructor leaves it. *)
Lemma copy_or_move_rvalue _N u _T body this t a o σ :
  copy_or_move types _N u _T = instantiated body →
  reference _T ≠ lvalue_ref →
  this ≠ t →
  heap σ !! this = Some (any_object a) → function_ a = None →
  heap σ !! t = Some o →
  sizeof types _T ≤ length (buff_ a) → sizeof types _T ≤ length (bytes_of o) →
  body this t σ =
    let moved :=
      move_constructor (types (named _T)) (take (sizeof types _T) (bytes_of o)) in
    ok tt {| heap := <[t := with_bytes o
                         (overwrite (take (sizeof types _T) moved.2) (bytes_of o))]>
                     (<[this := any_object
                          {| buff_ := overwrite (take (sizeof types _T) moved.1) (buff_ a);
                             function_ := Some (get_function_for_type u _T) |}]> (heap σ));
             trace := trace σ ++ [move_constructed (plain (named _T)) this t] |}.
Proof.
  intros Hbody Href Hne Hthis Hf Ht Ha Ho.
  destruct (decide (sizeof types _T ≤ _N)) as [Hfit|Hbig];
    [|by rewrite copy_or_move_too_big in Hbody by lia].
  rewrite copy_or_move_fits in Hbody by done. injection Hbody as <-. cbn beta.
  erewrite bind_ok by by apply read_function__eq. cbn beta. rewrite Hf.
  erewrite bind_ok by reflexivity.
  erewrite bind_ok by by apply write_function__eq.
  rewrite call_function_of_rvalue by done. unfold call_function_rvalue.
  erewrite bind_ok.
  2: { erewrite call_function__eq; [|apply lookup_insert_eq|reflexivity].
       eapply operation_move_eq; cbn;
         [done|apply lookup_insert_eq|by rewrite lookup_insert_ne|done..]. }
  cbn. by rewrite insert_insert_eq.
Qed.

Lemma static_any_value_eq _N u _T body :
  copy_or_move types _N u (forwarded _T) = instantiated body →
  static_any_value types _N u _T =
    instantiated (λ this v, static_any_default this;; body this v).
Proof.
  intros H. unfold static_any_value. rewrite std_forward_parameter.
  unfold mbind at 1, template_bind. by rewrite H.
Qed.

(** A value whose type is larger than the capacity is rejected when the
    constructor or either assignment operator is instantiated. *)
Lemma value_too_big_is_rejected _N u _T :
  _N < sizeof types _T →
  (∃ d, static_any_value types _N u _T = ill_formed d)
  ∧ (∃ d, assign_value types _N u _T = ill_formed d)
  ∧ (∃ d, assign_const_value types _N u _T = ill_formed d).
Proof.
  intros H.
  assert (copy_or_move types _N u (forwarded _T)
          = ill_formed "_T is too big to be copied to static_any") as Hbig.
  { apply copy_or_move_too_big. by unfold forwarded; destruct (reference _T). }
  split; [|split].
  - unfold static_any_value. rewrite std_forward_parameter.
    unfold mbind at 1, template_bind. rewrite Hbig. by eexists.
  - unfold assign_value. rewrite std_forward_parameter.
    unfold mbind at 1, template_bind. rewrite Hbig. by eexists.
  - unfold assign_const_value, std_forward.
    destruct (binds_lvalue _ _); cbn; [|by eexists].
    unfold mbind at 1, template_bind. rewrite Hbig. by eexists.
Qed.

(** [operator=(const _T&)], the overload an assignment from a [const] lvalue
    selects, deduces an unqualified [_T] and cannot forward its parameter. *)
Lemma assign_const_value_is_ill_formed _N u _T :
  reference _T = no_ref → is_const _T = false →
  assign_const_value types _N u _T
    = ill_formed "no matching function for call to forward".
Proof.
  intros Href Hc. unfold assign_const_value, std_forward, binds_lvalue, add_const.
  rewrite Href. cbn. rewrite Hc. by rewrite bool_decide_eq_true_2.
Qed.


(** ** Accessors *)

Lemma as__object _T :
  reference _T = no_ref → as_ _T = instantiated (λ this, mret (buff_data this)).
Proof. intros H. unfold as_. by rewrite bool_decide_eq_true_2. Qed.

Lemma any_cast_ref_object u _ValueT :
  reference _ValueT = no_ref → ∃ cast, any_cast_ref types u _ValueT = instantiated cast.
Proof. intros H. unfold any_cast_ref. rewrite as__object by done. by eexists. Qed.

Lemma any_cast_ptr_object u _ValueT :
  reference _ValueT = no_ref → ∃ cast, any_cast_ptr types u _ValueT = instantiated cast.
Proof. intros H. unfold any_cast_ptr. rewrite as__object by done. by eexists. Qed.

Lemma any_cast_ref_run u _ValueT cast this a σ :
  any_cast_ref types u _ValueT = instantiated cast →
  heap σ !! this = Some (any_object a) →
  cast this σ =
    if holds _ValueT a then ok this σ
    else failed (thrown (make_bad_any_cast (held_type a) (typeid _ValueT))).
Proof.
  intros Hcast H. unfold any_cast_ref in Hcast.
  destruct (decide (reference _ValueT = no_ref)) as [Href|Href].
  2: { unfold as_ in Hcast. by rewrite bool_decide_eq_false_2 in Hcast. }
  rewrite as__object in Hcast by done. injection Hcast as <-. cbn beta.
  erewrite bind_ok by by apply has_eq. cbn beta.
  destruct (holds _ValueT a); cbn [negb]; [done|].
  by erewrite bind_ok by by apply type_eq.
Qed.

Lemma any_cast_ptr_run u _ValueT cast this a σ :
  any_cast_ptr types u _ValueT = instantiated cast →
  heap σ !! this = Some (any_object a) →
  cast (Some this) σ = ok (if holds _ValueT a then buff_data this else nullptr) σ.
Proof.
  intros Hcast H. unfold any_cast_ptr in Hcast.
  destruct (decide (reference _ValueT = no_ref)) as [Href|Href].
  2: { unfold as_ in Hcast. by rewrite bool_decide_eq_false_2 in Hcast. }
  rewrite as__object in Hcast by done. injection Hcast as <-. cbn beta.
  erewrite bind_ok by reflexivity. cbn beta.
  erewrite bind_ok by by apply has_eq. cbn beta.
  by destruct (holds _ValueT a).
Qed.

(** C4: for an object type [_ValueT], the reference-returning
    [any_cast<_ValueT>(a)], which is also [a.get<_ValueT>()], returns a
    reference to the buffer of [a] when [has<_ValueT>()] holds, and otherwise
    throws a [bad_any_cast] whose stored type is what [type()] answers and
    whose target type is [typeid(_ValueT)]. Two failing requests on the same
    container differ in the target type only: their stored types are the
    same. *)
Theorem any_cast_ref_spec u _ValueT this a σ :
  reference _ValueT = no_ref →
  heap σ !! this = Some (any_object a) →
  ∃ cast held stored,
    any_cast_ref types u _ValueT = instantiated cast
    ∧ get types u _ValueT = instantiated cast
    ∧ has types u _ValueT this σ = ok held σ
    ∧ type types this σ = ok stored σ
    ∧ cast this σ =
        (if held then ok this σ
         else failed (thrown (make_bad_any_cast stored (typeid _ValueT))))
    ∧ stored_type (make_bad_any_cast stored (typeid _ValueT)) = stored
    ∧ target_type (make_bad_any_cast stored (typeid _ValueT)) = typeid _ValueT
    ∧ ∀ u' _ValueT' cast' e e',
        any_cast_ref types u' _ValueT' = instantiated cast' →
        cast this σ = failed (thrown e) →
        cast' this σ = failed (thrown e') →
        stored_type e' = stored_type e
        ∧ target_type e = typeid _ValueT
        ∧ target_type e' = typeid _ValueT'.
Proof.
  intros Href H.
  destruct (any_cast_ref_object u _ValueT Href) as [cast Hcast].
  exists cast, (holds _ValueT a), (held_type a).
  split; [done|]. split; [done|].
  split; [by apply has_eq|]. split; [by apply type_eq|].
  split; [by eapply any_cast_ref_run|]. split; [done|]. split; [done|].
  intros u' _ValueT' cast' e e' Hcast' He He'.
  rewrite (any_cast_ref_run _ _ _ _ _ _ Hcast H) in He.
  rewrite (any_cast_ref_run _ _ _ _ _ _ Hcast' H) in He'.
  destruct (holds _ValueT a); [done|]. destruct (holds _ValueT' a); [done|].
  by injection He as <-; injection He' as <-.
Qed.

(** C6: for an object type [_ValueT], the pointer-returning
    [any_cast<_ValueT>(&a)] returns the address of the buffer of [a] when
    [has<_ValueT>()] holds and a null pointer otherwise; in both cases it
    returns, it does not throw or fault. *)
Theorem any_cast_ptr_spec u _ValueT this a σ :
  reference _ValueT = no_ref →
  heap σ !! this = Some (any_object a) →
  ∃ cast held,
    any_cast_ptr types u _ValueT = instantiated cast
    ∧ has types u _ValueT this σ = ok held σ
    ∧ cast (Some this) σ = ok (if held then buff_data this else nullptr) σ.
Proof.
  intros Href H.
  destruct (any_cast_ptr_object u _ValueT Href) as [cast Hcast].
  exists cast, (holds _ValueT a).
  split; [done|]. split; [by apply has_eq|]. by eapply any_cast_ptr_run.
Qed.

(** C10: on an empty container the reference-returning [any_cast<_T>], and
    so [get<_T>()], throws the [bad_any_cast] whose stored type is
    [typeid(void)] and whose target type is [typeid(_T)]. *)
Theorem get_on_empty_throws u _T this a σ :
  reference _T = no_ref →
  heap σ !! this = Some (any_object a) →
  function_ a = None →
  ∃ cast,
    any_cast_ref types u _T = instantiated cast
    ∧ get types u _T = instantiated cast
    ∧ type types this σ = ok typeid_void σ
    ∧ cast this σ = failed (thrown (make_bad_any_cast typeid_void (typeid _T)))
    ∧ stored_type (make_bad_any_cast typeid_void (typeid _T)) = typeid_void
    ∧ target_type (make_bad_any_cast typeid_void (typeid _T)) = typeid _T.
Proof.
  intros Href H Hf.
  destruct (any_cast_ref_object u _T Href) as [cast Hcast].
  exists cast. split; [done|]. split; [done|].
  split. { rewrite (type_eq _ _ _ H). unfold held_type. by rewrite Hf. }
  split; [|done].
  rewrite (any_cast_ref_run _ _ _ _ _ _ Hcast H).
  unfold holds, held_type. by rewrite Hf.
Qed.


(** C3: for an object type [_T] with [sizeof(_T) <= _N] and a value of type
    [_T], given as an lvalue or as an rvalue, of which the copy constructor
    (for an lvalue) or the move constructor (for an rvalue) makes an equal
    object: constructing a [static_any<_N>] from it and then calling
    [get<_T>()], which is [any_cast<_T>], gives a reference through which
    that value is read. ([_T] is the type of a plain
    object; an argument that is itself a [static_any] selects the
    constructors from another container.) *)
Theorem construct_then_get _N u u' _T c this v storage value σ :
  reference _T = no_ref →
  sizeof types _T ≤ _N →
  heap σ !! this = Some (any_object storage) →
  length (buff_ storage) = _N →
  heap σ !! v = Some (plain_object value) →
  length value = sizeof types _T →
  match c with
  | lvalue => copy_constructor (types (named _T)) value
  | rvalue => (move_constructor (types (named _T)) value).1
  end = value →
  ∃ construct get_T σ',
    static_any_value types _N u (deduce _T c) = instantiated construct
    ∧ get types u' _T = instantiated get_T
    ∧ any_cast_ref types u' _T = instantiated get_T
    ∧ construct this v σ = ok tt σ'
    ∧ get_T this σ' = ok this σ'
    ∧ value_of types _T this σ' = ok value σ'.
Proof.
  intros Href Hfit Hthis Hlen Hv Hval Hreplica.
  assert (this ≠ v) as Hne by (intros ->; congruence).
  destruct (any_cast_ref_object u' _T Href) as [get_T Hget].
  pose proof (copy_or_move_fits _N u (deduce _T c)) as Hbody.
  specialize (Hbody ltac:(by destruct c)).
  pose proof Hbody as Hctor. rewrite <-forwarded_deduce in Hctor.
  apply static_any_value_eq in Hctor.
  set (a0 := {| buff_ := buff_ storage; function_ := None |}).
  set (σ0 := {| heap := <[this := any_object a0]> (heap σ); trace := trace σ |}).
  assert (static_any_default this σ = ok tt σ0) as Hdefault
    by by apply write_function__eq.
  assert (heap σ0 !! this = Some (any_object a0)) as Hthis0 by apply lookup_insert_eq.
  assert (heap σ0 !! v = Some (plain_object value)) as Hv0
    by by cbn; rewrite lookup_insert_ne.
  assert (take (sizeof types _T) value = value) as Htake by (apply take_ge; lia).
  destruct c.
  - pose proof (copy_or_move_lvalue _N u _ _ this v a0 _ σ0 Hbody eq_refl Hne Hthis0
      eq_refl Hv0) as Hrun.
    specialize (Hrun ltac:(unfold sizeof in *; cbn; lia) ltac:(unfold sizeof in *; cbn; lia)).
    subst σ0 a0. cbn [bytes_of named add_lvalue_reference deduce heap trace buff_] in Hrun.
    change (sizeof types (add_lvalue_reference _T)) with (sizeof types _T) in Hrun.
    rewrite Htake, Hreplica, Htake, insert_insert_eq in Hrun.
    eexists _, get_T, _. split; [exact Hctor|]. split; [done|]. split; [done|].
    split; [cbn beta; by erewrite bind_ok by exact Hdefault|].
    set (σ' := {| heap := _ |}).
    assert (heap σ' !! this = Some (any_object
      {| buff_ := overwrite value (buff_ storage);
         function_ := Some (get_function_for_type u (add_lvalue_reference _T)) |})) as H'
      by apply lookup_insert_eq.
    split.
    + rewrite (any_cast_ref_run _ _ _ _ _ _ Hget H').
      replace (holds _ _) with true; [done|]. symmetry. apply holds_iff. by eexists.
    + unfold value_of. erewrite load_eq; [|exact H'|].
      * cbn. by rewrite <-Hval, take_overwrite.
      * cbn. unfold sizeof in *. rewrite length_overwrite; lia.
  - pose proof (copy_or_move_rvalue _N u _ _ this v a0 _ σ0 Hbody ltac:(done) Hne Hthis0
      eq_refl Hv0) as Hrun.
    specialize (Hrun ltac:(unfold sizeof in *; cbn; lia) ltac:(unfold sizeof in *; cbn; lia)).
    subst σ0 a0. cbn [bytes_of named remove_reference_t deduce with_bytes heap trace buff_] in Hrun.
    change (sizeof types (remove_reference_t _T)) with (sizeof types _T) in Hrun.
    cbn zeta in Hrun.
    rewrite Htake, Hreplica, Htake, insert_insert_eq in Hrun.
    eexists _, get_T, _. split; [exact Hctor|]. split; [done|]. split; [done|].
    split; [cbn beta; by erewrite bind_ok by exact Hdefault|].
    set (σ' := {| heap := _ |}).
    assert (heap σ' !! this = Some (any_object
      {| buff_ := overwrite value (buff_ storage);
         function_ := Some (get_function_for_type u (remove_reference_t _T)) |})) as H'.
    { cbn. rewrite lookup_insert_ne by done. apply lookup_insert_eq. }
    split.
    + rewrite (any_cast_ref_run _ _ _ _ _ _ Hget H').
      replace (holds _ _) with true; [done|]. symmetry. apply holds_iff. by eexists.
    + unfold value_of. erewrite load_eq; [|exact H'|].
      * cbn. by rewrite <-Hval, take_overwrite.
      * cbn. unfold sizeof in *. rewrite length_overwrite; lia.
Qed.


(** ** emplace *)

Lemma emplace_object u _T :
  reference _T = no_ref →
  emplace types u _T = instantiated (λ this args,
    destroy types this;;
    placement_new types (buff_data this) _T (constructor (types (named _T)) args);;
    emit (constructed _T this);;
    write_function_ this (Some (get_function_for_type u _T))).
Proof. intros H. unfold emplace. by rewrite bool_decide_eq_true_2. Qed.

Lemma emplace_run u _T body this args a σ :
  emplace types u _T = instantiated body →
  heap σ !! this = Some (any_object a) →
  sizeof types _T ≤ length (buff_ a) →
  body this args σ =
    ok tt {| heap := <[this := any_object
                         {| buff_ := overwrite
                              (take (sizeof types _T) (constructor (types (named _T)) args))
                              (buff_ a);
                            function_ := Some (get_function_for_type u _T) |}]> (heap σ);
             trace := trace σ
               ++ match function_ a with
                  | Some g => [destroyed (operation_for g) this]
                  | None => []
                  end
               ++ [constructed _T this] |}.
Proof.
  intros Hbody H Hfit.
  destruct (decide (reference _T = no_ref)) as [Href|Href].
  2: { unfold emplace in Hbody. by rewrite bool_decide_eq_false_2 in Hbody. }
  rewrite emplace_object in Hbody by done. injection Hbody as <-. cbn beta.
  unfold placement_new, buff_data.
  destruct (function_ a) as [g|] eqn:Hg.
  - erewrite bind_ok by by eapply destroy_held. cbn beta.
    erewrite bind_ok by (eapply store_eq; [apply lookup_insert_eq|done]). cbn beta.
    erewrite bind_ok by reflexivity. cbn beta.
    erewrite write_function__eq by apply lookup_insert_eq.
    cbn. by rewrite !insert_insert_eq, <-(assoc_L (++)).
  - erewrite bind_ok by by eapply destroy_empty. cbn beta.
    erewrite bind_ok by (by eapply store_eq). cbn beta.
    erewrite bind_ok by reflexivity. cbn beta.
    erewrite write_function__eq by apply lookup_insert_eq.
    cbn. by rewrite !insert_insert_eq.
Qed.

(** C5, as amended: for an object type [_T] that fits the buffer,
    [emplace<_T>(args...)] first destroys the value held, if any, then
    constructs a [_T] in place from the arguments and installs the function
    of [_T]; afterwards [has<_T>()] is true, [has<_U>()] is false for every
    [_U] that differs from [_T] once references and cv-qualifiers are
    stripped, and [type()] is [typeid(_T)]. *)
Theorem emplace_then_has u _T this args a σ :
  reference _T = no_ref →
  heap σ !! this = Some (any_object a) →
  sizeof types _T ≤ length (buff_ a) →
  ∃ body σ',
    emplace types u _T = instantiated body
    ∧ body this args σ = ok tt σ'
    ∧ trace σ' = trace σ
        ++ match function_ a with
           | Some g => [destroyed (operation_for g) this]
           | None => []
           end
        ++ [constructed _T this]
    ∧ heap σ' = <[this := any_object
                    {| buff_ := overwrite
                         (take (sizeof types _T) (constructor (types (named _T)) args))
                         (buff_ a);
                       function_ := Some (get_function_for_type u _T) |}]> (heap σ)
    ∧ (∀ u', has types u' _T this σ' = ok true σ')
    ∧ (∀ u' _U,
         remove_cv_t (remove_reference_t _U) ≠ remove_cv_t (remove_reference_t _T) →
         has types u' _U this σ' = ok false σ')
    ∧ type types this σ' = ok (typeid _T) σ'.
Proof.
  intros Href H Hfit. pose proof (emplace_object u _T Href) as Hbody.
  eexists _, _. split; [exact Hbody|].
  split; [exact (emplace_run _ _ _ _ args _ _ Hbody H Hfit)|].
  split; [done|]. split; [done|].
  set (σ' := {| heap := _ |}).
  assert (heap σ' !! this = Some (any_object
    {| buff_ := overwrite (take (sizeof types _T) (constructor (types (named _T)) args)) (buff_ a);
       function_ := Some (get_function_for_type u _T) |})) as H' by apply lookup_insert_eq.
  split; [|split].
  - intros u'. rewrite (has_eq _ _ _ _ _ H'). f_equal. apply holds_iff. by eexists.
  - intros u' _U Hne. rewrite (has_eq _ _ _ _ _ H'). f_equal.
    apply not_true_is_false. rewrite holds_iff. intros (f & [= <-] & Hn). cbn in Hn.
    apply Hne. rewrite !normal_form. by rewrite Hn.
  - by rewrite (type_eq _ _ _ H').
Qed.



(** [emplace] has no capacity check: it is instantiated for every object
    type, and a type larger than the buffer is constructed past its end. *)
Lemma emplace_is_never_rejected_for_size u _T :
  reference _T = no_ref → ∃ body, emplace types u _T = instantiated body.
Proof. intros H. rewrite emplace_object by done. by eexists. Qed.

Lemma emplace_out_of_bounds u _T body this args a σ :
  emplace types u _T = instantiated body →
  heap σ !! this = Some (any_object a) →
  function_ a = None →
  length (buff_ a) < sizeof types _T →
  body this args σ = failed out_of_bounds.
Proof.
  intros Hbody H Hf Hbig.
  destruct (decide (reference _T = no_ref)) as [Href|Href].
  2: { unfold emplace in Hbody. by rewrite bool_decide_eq_false_2 in Hbody. }
  rewrite emplace_object in Hbody by done. injection Hbody as <-. cbn beta.
  erewrite bind_ok by by eapply destroy_empty. cbn beta.
  apply bind_failed. unfold placement_new, store, buff_data. rewrite H.
  rewrite decide_False; [done|cbn; lia].
Qed.

(** ** static_any_t *)

(** An lvalue deduces a reference type, which is not trivially copyable. *)
Lemma static_any_t_lvalue_is_rejected _N _T :
  static_any_t_value types _N (deduce _T lvalue)
    = ill_formed "_ValueT is not trivially copyable"
  ∧ static_any_t_assign types _N (deduce _T lvalue)
    = ill_formed "_ValueT is not trivially copyable".
Proof.
  unfold static_any_t_value, static_any_t_assign.
  by rewrite std_forward_parameter.
Qed.

Lemma static_any_t_copy_eq _N _ValueT :
  is_trivially_copyable types _ValueT = true →
  sizeof types _ValueT ≤ _N →
  static_any_t_copy types _N _ValueT =
    instantiated (λ this t, memcpy (buff_data this) (Some t) (sizeof types _ValueT)).
Proof.
  intros Htc Hfit. unfold static_any_t_copy, capacity.
  by rewrite Htc, bool_decide_eq_true_2.
Qed.

Lemma static_any_t_rejections _N _T c :
  trivially_copyable (types (named _T)) = false ∨ _N < sizeof types _T →
  (∃ d, static_any_t_value types _N (deduce _T c) = ill_formed d)
  ∧ (∃ d, static_any_t_assign types _N (deduce _T c) = ill_formed d).
Proof.
  intros H.
  assert (∃ d, static_any_t_copy types _N (deduce _T c) = ill_formed d) as [d Hd].
  { unfold static_any_t_copy, capacity.
    destruct (is_trivially_copyable types (deduce _T c)) eqn:Htc; [|by eexists].
    rewrite bool_decide_eq_false_2; [by eexists|].
    destruct H as [H|H]; [|by destruct c; unfold sizeof in *; cbn; lia].
    destruct c; unfold is_trivially_copyable in Htc; cbn in Htc; congruence. }
  unfold static_any_t_value, static_any_t_assign.
  rewrite std_forward_parameter, forwarded_deduce.
  unfold mbind at 1 3, template_bind. rewrite Hd. split; by eexists.
Qed.

(** For an rvalue of a trivially copyable type that fits, construction and
    assignment copy the bytes, and [get] reads them back. *)
Lemma static_any_t_rvalue_roundtrip _N _T this t o value σ :
  reference _T = no_ref →
  is_trivially_copyable types _T = true →
  sizeof types _T ≤ _N →
  heap σ !! this = Some o → length (bytes_of o) = _N →
  heap σ !! t = Some (plain_object value) → length value = sizeof types _T →
  let σ' := {| heap := <[this := with_bytes o (overwrite value (bytes_of o))]> (heap σ);
               trace := trace σ |} in
  ∃ construct assign get_T,
    static_any_t_value types _N (deduce _T rvalue) = instantiated construct
    ∧ static_any_t_assign types _N (deduce _T rvalue) = instantiated assign
    ∧ static_any_t_get _T = instantiated get_T
    ∧ construct this t σ = ok tt σ'
    ∧ assign this t σ = ok this σ'
    ∧ get_T this σ' = ok this σ'
    ∧ value_of types _T this σ' = ok value σ'.
Proof.
  intros Href Htc Hfit Hthis Hlen Ht Hval σ'.
  assert (deduce _T rvalue = _T) as -> by (by destruct _T; cbn in *; subst).
  assert (forwarded _T = _T) as Hfw.
  { unfold forwarded. rewrite Href. by destruct _T; cbn in *; subst. }
  unfold static_any_t_value, static_any_t_assign, static_any_t_get.
  rewrite std_forward_parameter, Hfw, bool_decide_eq_true_2 by done.
  unfold mbind at 1 3, template_bind. rewrite static_any_t_copy_eq by done.
  eexists _, _, _. do 3 (split; [reflexivity|]). cbn beta.
  assert (memcpy (buff_data this) (Some t) (sizeof types _T) σ = ok tt σ') as Hcpy.
  { unfold memcpy. erewrite bind_ok by (eapply load_eq; [done|cbn [bytes_of]; lia]).
    cbn beta. rewrite (store_eq _ _ _ _ _ Hthis) by lia.
    cbn [bytes_of]. by rewrite !(take_ge value) by lia. }
  split; [done|]. split; [by erewrite bind_ok by exact Hcpy|]. split; [done|].
  unfold value_of. erewrite load_eq; [|apply lookup_insert_eq|].
  - f_equal. destruct o; cbn [bytes_of with_bytes buff_]; by rewrite <-Hval, take_overwrite.
  - destruct o; cbn [bytes_of with_bytes buff_] in *; rewrite length_overwrite; lia.
Qed.


End correctness.

(** * The properties on the sample program *)

(** C2, where the code departs from it: a value of a type larger than the
    capacity is rejected when the constructor or the assignment is
    instantiated, but [emplace] has no such check. For a [static_any<4>] and
    [double], of 8 bytes, [emplace<double>] is instantiated, and running it
    constructs the [double] past the end of the 4-byte buffer. *)
Theorem emplace_oversized_is_not_rejected :
  4 < sizeof sample_types double
  ∧ (∃ d, static_any_value sample_types 4 0 (deduce double rvalue) = ill_formed d)
  ∧ (∃ d, assign_value sample_types 4 0 (deduce double rvalue) = ill_formed d)
  ∧ ∃ body,
      emplace sample_types 0 double = instantiated body
      ∧ body 3 [double_3_5] sample_machine = failed out_of_bounds.
Proof.
  split; [vm_compute; lia|].
  destruct (value_too_big_is_rejected sample_types 4 0 (deduce double rvalue))
    as (Hctor & Hassign & _); [vm_compute; lia|].
  split; [exact Hctor|]. split; [exact Hassign|].
  destruct (emplace_is_never_rejected_for_size sample_types 0 double eq_refl)
    as [body Hbody].
  exists body. split; [exact Hbody|].
  eapply emplace_out_of_bounds; [exact Hbody|reflexivity|reflexivity|vm_compute; lia].
Qed.

(** C8, where the code departs from it: [int] is trivially copyable and fits
    16 bytes, but constructing or assigning a [static_any_t<16>] from an
    [int] lvalue deduces [_ValueT = int&], and the [static_assert] on
    [is_trivially_copyable<_ValueT>] rejects it. *)
Theorem static_any_t_rejects_an_lvalue :
  is_trivially_copyable sample_types int = true
  ∧ sizeof sample_types int ≤ capacity 16
  ∧ static_any_t_value sample_types 16 (deduce int lvalue)
    = ill_formed "_ValueT is not trivially copyable"
  ∧ static_any_t_assign sample_types 16 (deduce int lvalue)
    = ill_formed "_ValueT is not trivially copyable".
Proof.
  split; [reflexivity|]. split; [vm_compute; lia|].
  apply static_any_t_lvalue_is_rejected.
Qed.

(** From an rvalue the same [int] is stored and read back. *)
Example static_any_t_accepts_an_rvalue :
  ∃ construct get_int σ',
    static_any_t_value sample_types 16 (deduce int rvalue) = instantiated construct
    ∧ static_any_t_get int = instantiated get_int
    ∧ construct 6 2 sample_machine = ok tt σ'
    ∧ get_int 6 σ' = ok 6 σ'
    ∧ value_of sample_types int 6 σ' = ok int_42 σ'.
Proof.
  destruct (static_any_t_rvalue_roundtrip sample_types 16 int 6 2
              (plain_object (replicate 16 x00)) int_42 sample_machine)
    as (construct & assign & get_int & Hc & _ & Hg & Hrun & _ & Hget & Hval);
    try reflexivity; [vm_compute; lia|].
  eexists construct, get_int, _. repeat split; [exact Hc|exact Hg|exact Hrun|exact Hget|exact Hval].
Qed.

(** C5, as it is stated, fails: [const int] is a type distinct from [int],
    and after [emplace<int>] the query [has<const int>()] is true. *)
Lemma emplace_has_qualified_type :
  ∃ body σ',
    emplace sample_types 0 int = instantiated body
    ∧ body 3 [int_42] sample_machine = ok tt σ'
    ∧ add_const int ≠ int
    ∧ has sample_types 0 (add_const int) 3 σ' = ok true σ'.
Proof.
  eexists _, _. split; [reflexivity|]. split; [vm_compute; reflexivity|].
  split; [done|]. vm_compute. reflexivity.
Qed.

(** ** The general theorems at concrete inputs *)

Lemma move_from_another_is_a_copy_witness :
  ∃ σ' σ'',
    static_any_rvalue_ref sample_types 5 1 sample_machine = ok tt σ'
    ∧ trace σ' = [copy_constructed int 5 1]
    ∧ heap σ' !! 1 = Some (any_object sample_any)
    ∧ assign_rvalue_ref sample_types 5 1 sample_machine = ok 5 σ''
    ∧ trace σ'' = [copy_constructed int 5 1]
    ∧ heap σ'' !! 1 = Some (any_object sample_any).
Proof.
  destruct (move_from_another_is_a_copy sample_types 5 1
    {| buff_ := replicate 24 x00; function_ := None |} sample_any
    {| translation_unit := 0; operation_for := int |} sample_machine)
    as (Hctor & Hassign & Hsrc).
  - lia.
  - reflexivity.
  - reflexivity.
  - reflexivity.
  - vm_compute; lia.
  - vm_compute; lia.
  - eexists _, _. split; [exact Hctor|]. split; [reflexivity|].
    split; [exact Hsrc|]. split; [exact Hassign|]. split; [reflexivity|exact Hsrc].
Defined.

Lemma construct_then_get_witness :
  ∃ construct get_int σ',
    static_any_value sample_types 24 0 (deduce int lvalue) = instantiated construct
    ∧ get sample_types 1 int = instantiated get_int
    ∧ any_cast_ref sample_types 1 int = instantiated get_int
    ∧ construct 5 2 sample_machine = ok tt σ'
    ∧ get_int 5 σ' = ok 5 σ'
    ∧ value_of sample_types int 5 σ' = ok int_42 σ'.
Proof.
  apply (construct_then_get sample_types 24 0 1 int lvalue 5 2
           {| buff_ := replicate 24 x00; function_ := None |} int_42 sample_machine);
    try reflexivity.
  vm_compute; lia.
Defined.

Lemma any_cast_ref_spec_witness :
  ∃ cast,
    any_cast_ref sample_types 0 double = instantiated cast
    ∧ cast 1 sample_machine
      = failed (thrown (make_bad_any_cast (typeid int) (typeid double))).
Proof.
  destruct (any_cast_ref_spec sample_types 0 double 1 sample_any sample_machine)
    as (cast & held & stored & Hcast & _ & Hhas & Htype & Hrun & _);
    [reflexivity|reflexivity|].
  exists cast. split; [exact Hcast|].
  vm_compute in Hhas, Htype. injection Hhas as <-. injection Htype as <-.
  exact Hrun.
Defined.

Lemma any_cast_ptr_spec_witness :
  ∃ cast_int cast_double,
    any_cast_ptr sample_types 0 int = instantiated cast_int
    ∧ any_cast_ptr sample_types 0 double = instantiated cast_double
    ∧ cast_int (Some 1) sample_machine = ok (Some 1) sample_machine
    ∧ cast_double (Some 1) sample_machine = ok nullptr sample_machine.
Proof.
  destruct (any_cast_ptr_spec sample_types 0 int 1 sample_any sample_machine)
    as (cast_int & held & Hcast & Hhas & Hrun); [reflexivity|reflexivity|].
  destruct (any_cast_ptr_spec sample_types 0 double 1 sample_any sample_machine)
    as (cast_double & held' & Hcast' & Hhas' & Hrun'); [reflexivity|reflexivity|].
  exists cast_int, cast_double. split; [exact Hcast|]. split; [exact Hcast'|].
  vm_compute in Hhas, Hhas'. injection Hhas as <-. injection Hhas' as <-.
  split; [exact Hrun|exact Hrun'].
Defined.

Lemma emplace_then_has_witness :
  ∃ body σ',
    emplace sample_types 0 double = instantiated body
    ∧ body 1 [double_3_5] sample_machine = ok tt σ'
    ∧ trace σ' = [destroyed int 1; constructed double 1]
    ∧ has sample_types 0 double 1 σ' = ok true σ'
    ∧ has sample_types 0 int 1 σ' = ok false σ'
    ∧ type sample_types 1 σ' = ok (typeid double) σ'.
Proof.
  destruct (emplace_then_has sample_types 0 double 1 [double_3_5] sample_any
              sample_machine)
    as (body & σ' & Hbody & Hrun & Htrace & _ & Hhas & Hnot & Htype);
    [reflexivity|reflexivity|vm_compute; lia|].
  exists body, σ'. split; [exact Hbody|]. split; [exact Hrun|].
  split; [exact Htrace|]. split; [apply Hhas|]. split; [|exact Htype].
  apply Hnot. discriminate.
Defined.

Lemma default_constructed_is_empty_witness :
  ∃ σ', static_any_default 5 sample_machine = ok tt σ'
      ∧ empty 5 σ' = ok true σ'
      ∧ (∀ u _T, has sample_types u _T 5 σ' = ok false σ')
      ∧ type sample_types 5 σ' = ok typeid_void σ'.
Proof.
  apply (default_constructed_is_empty sample_types 5
           {| buff_ := replicate 24 x00; function_ := None |} sample_machine).
  reflexivity.
Defined.

Lemma has_ignores_cv_and_reference_witness :
  has sample_types 1 int 1 sample_machine = ok true sample_machine
  ∧ has sample_types 1 (add_const int) 1 sample_machine = ok true sample_machine
  ∧ has sample_types 1 (add_lvalue_reference int) 1 sample_machine
    = ok true sample_machine.
Proof.
  destruct (has_ignores_cv_and_reference sample_types 1 0 int rvalue 1 sample_any
              sample_machine)
    as (_ & _ & _ & H); [reflexivity|reflexivity|].
  exact H.
Defined.

Lemma get_on_empty_throws_witness :
  ∃ cast,
    get sample_types 0 int = instantiated cast
    ∧ cast 3 sample_machine
      = failed (thrown (make_bad_any_cast typeid_void (typeid int))).
Proof.
  destruct (get_on_empty_throws sample_types 0 int 3
              {| buff_ := replicate 4 x00; function_ := None |} sample_machine)
    as (cast & _ & Hget & _ & Hrun & _); [reflexivity|reflexivity|reflexivity|].
  exists cast. split; [exact Hget|exact Hrun].
Defined.

(** ** Two runs *)

Example assign_then_emplace_runs :
  ∃ program σ',
    assign_then_emplace = instantiated program
    ∧ program sample_machine = ok (true, int_42, false, true, double_3_5) σ'
    ∧ trace σ' = [move_constructed int 7 2; destroyed int 7; constructed double 7].
Proof.
  eexists _, _. split; [reflexivity|]. split; [vm_compute; reflexivity|].
  reflexivity.
Qed.

Example copy_across_capacities_runs :
  ∃ program σ',
    copy_across_capacities = instantiated program
    ∧ program sample_machine = ok (double_3_5, double_1_0) σ'
    ∧ trace σ' = [constructed double 7; copy_constructed double 5 7;
                  destroyed double 7; constructed double 7].
Proof.
  eexists _, _. split; [reflexivity|]. split; [vm_compute; reflexivity|].
  reflexivity.
Qed.

(** * Further properties of the code *)

Section further_properties.

Context (types : type_name → class_info).



(** What [destroy] adds to the trace for a container. *)
Lemma read_function__invalid this σ :
  (∀ a, heap σ !! this ≠ Some (any_object a)) →
  read_function_ this σ = failed invalid_pointer.
Proof.
  intros H. unfold read_function_, deref, mbind, M_bind.
  destruct (heap σ !! this) as [[a|bs]|] eqn:E; [by destruct (H a)|done..].
Qed.

(** X1: [reset()] and the destructor destroy the held value, if there is
    one, once, leave the container empty and every other object as it was;
    a [reset()] after that does nothing. *)
Theorem reset_destroys_once this a σ :
  heap σ !! this = Some (any_object a) →
  ∃ σ',
    reset types this σ = ok tt σ'
    ∧ static_any_destructor types this σ = ok tt σ'
    ∧ trace σ' = trace σ
        ++ match function_ a with
           | Some g => [destroyed (operation_for g) this]
           | None => []
           end
    ∧ heap σ' !! this = Some (any_object {| buff_ := buff_ a; function_ := None |})
    ∧ (∀ b, b ≠ this → heap σ' !! b = heap σ !! b)
    ∧ empty this σ' = ok true σ'
    ∧ reset types this σ' = ok tt σ'.
Proof.
  intros H. unfold reset, static_any_destructor.
  destruct (function_ a) as [g|] eqn:Hg.
  - eexists. split; [by eapply destroy_held|]. split; [by eapply destroy_held|].
    split; [done|]. split; [apply lookup_insert_eq|].
    split; [by intros b Hb; cbn; rewrite lookup_insert_ne|].
    split; [by erewrite empty_eq by apply lookup_insert_eq|].
    eapply destroy_empty; [apply lookup_insert_eq|done].
  - exists σ. split; [by eapply destroy_empty|]. split; [by eapply destroy_empty|].
    split; [by rewrite app_nil_r|].
    split; [by rewrite H; destruct a; cbn in *; subst|].
    split; [done|].
    split; [by rewrite (empty_eq _ _ _ H), Hg|].
    by eapply destroy_empty.
Qed.

(** X2: what [has<_T>()] answers does not depend on the translation unit
    that asks, although its first comparison, of function addresses, does:
    it is true exactly when a value is held whose type identity is
    [typeid(_T)]. *)
Theorem has_is_independent_of_the_translation_unit u u' _T this a σ :
  heap σ !! this = Some (any_object a) →
  ∃ held,
    has types u _T this σ = ok held σ
    ∧ has types u' _T this σ = ok held σ
    ∧ (held = true ↔
       ∃ f, function_ a = Some f ∧ typeid (operation_for f) = typeid _T).
Proof.
  intros H. exists (holds _T a).
  split; [by apply has_eq|]. split; [by apply has_eq|].
  rewrite holds_iff. unfold typeid.
  split; intros (f & Hf & Hn); exists f; (split; [done|]); congruence.
Qed.

(** X5: constructing from an empty container, in any of the three
    flavours, gives an empty container and calls nothing; assigning from one
    destroys the value the destination holds and leaves it empty. *)
Theorem from_an_empty_source this another dst src σ :
  heap σ !! this = Some (any_object dst) →
  heap σ !! another = Some (any_object src) →
  function_ src = None →
  ∃ σ1 σ2,
    static_any_const_ref types this another σ = ok tt σ1
    ∧ static_any_ref types this another σ = ok tt σ1
    ∧ static_any_rvalue_ref types this another σ = ok tt σ1
    ∧ trace σ1 = trace σ
    ∧ empty this σ1 = ok true σ1
    ∧ assign_const_ref types this another σ = ok this σ2
    ∧ assign_ref types this another σ = ok this σ2
    ∧ assign_rvalue_ref types this another σ = ok this σ2
    ∧ trace σ2 = trace σ
        ++ match function_ dst with
           | Some g => [destroyed (operation_for g) this]
           | None => []
           end
    ∧ empty this σ2 = ok true σ2.
Proof.
  intros Hdst Hsrc Hf.
  set (σ0 := {| heap := <[this := any_object {| buff_ := buff_ dst; function_ := None |}]> (heap σ);
               trace := trace σ |}).
  assert (∃ src', heap σ0 !! another = Some (any_object src') ∧ function_ src' = None)
    as (src' & Hsrc' & Hf').
  { destruct (decide (this = another)) as [<-|Hne].
    - eexists. split; [apply lookup_insert_eq|done].
    - exists src. split; [by cbn; rewrite lookup_insert_ne|done]. }
  assert (static_any_const_ref types this another σ = ok tt σ0) as Hctor.
  { unfold static_any_const_ref, static_any_default.
    erewrite bind_ok by by apply write_function__eq.
    by eapply copy_from_another_empty. }
  destruct (function_ dst) as [g|] eqn:Hg.
  - set (σ2 := {| heap := heap σ0; trace := trace σ ++ [destroyed (operation_for g) this] |}).
    assert (assign_const_ref types this another σ = ok this σ2) as Hassign.
    { unfold assign_const_ref.
      erewrite bind_ok by by eapply destroy_held.
      by erewrite bind_ok by by eapply copy_from_another_empty. }
    exists σ0, σ2. do 3 (split; [exact Hctor|]). split; [done|].
    split; [by erewrite empty_eq by apply lookup_insert_eq|].
    do 3 (split; [exact Hassign|]). split; [done|].
    by erewrite empty_eq by apply lookup_insert_eq.
  - assert (assign_const_ref types this another σ = ok this σ) as Hassign.
    { unfold assign_const_ref.
      erewrite bind_ok by by eapply destroy_empty.
      by erewrite bind_ok by by eapply copy_from_another_empty. }
    exists σ0, σ. do 3 (split; [exact Hctor|]). split; [done|].
    split; [by erewrite empty_eq by apply lookup_insert_eq|].
    do 3 (split; [exact Hassign|]). split; [by rewrite app_nil_r|].
    by rewrite (empty_eq _ _ _ Hdst), Hg.
Qed.

(** X6: a transfer from another container is not checked against the
    capacity of the destination: when the held value is larger than the
    destination's buffer, every constructor and assignment from that
    container constructs it past the end of the buffer. *)
Theorem transfer_is_not_bounds_checked this another dst src f σ :
  heap σ !! this = Some (any_object dst) →
  heap σ !! another = Some (any_object src) →
  function_ src = Some f →
  sizeof types (operation_for f) ≤ length (buff_ src) →
  length (buff_ dst) < sizeof types (operation_for f) →
  static_any_const_ref types this another σ = failed out_of_bounds
  ∧ static_any_ref types this another σ = failed out_of_bounds
  ∧ static_any_rvalue_ref types this another σ = failed out_of_bounds
  ∧ assign_const_ref types this another σ = failed out_of_bounds
  ∧ assign_ref types this another σ = failed out_of_bounds
  ∧ assign_rvalue_ref types this another σ = failed out_of_bounds.
Proof.
  intros Hdst Hsrc Hf Hs Hd.
  assert (this ≠ another) as Hne.
  { intros ->. rewrite Hdst in Hsrc. injection Hsrc as ->. lia. }
  assert (static_any_const_ref types this another σ = failed out_of_bounds) as Hctor.
  { unfold static_any_const_ref, static_any_default.
    erewrite bind_ok by by apply write_function__eq.
    eapply copy_from_another_overflow;
      [apply lookup_insert_eq|by cbn; rewrite lookup_insert_ne|done..]. }
  assert (assign_const_ref types this another σ = failed out_of_bounds) as Hassign.
  { unfold assign_const_ref.
    destruct (function_ dst) as [g|] eqn:Hg.
    - erewrite bind_ok by by eapply destroy_held.
      apply bind_failed.
      eapply copy_from_another_overflow;
        [apply lookup_insert_eq|by cbn; rewrite lookup_insert_ne|done..].
    - erewrite bind_ok by by eapply destroy_empty.
      apply bind_failed. by eapply copy_from_another_overflow. }
  by repeat split.
Qed.

(** X7: assigning a container that holds a value to itself, in any of the
    three flavours, destroys the value and then finds nothing to copy: the
    container is left empty. *)
Theorem self_assignment_loses_the_value this a g σ :
  heap σ !! this = Some (any_object a) →
  function_ a = Some g →
  ∃ σ',
    assign_const_ref types this this σ = ok this σ'
    ∧ assign_ref types this this σ = ok this σ'
    ∧ assign_rvalue_ref types this this σ = ok this σ'
    ∧ trace σ' = trace σ ++ [destroyed (operation_for g) this]
    ∧ empty this σ' = ok true σ'
    ∧ (∀ u _T, has types u _T this σ' = ok false σ').
Proof.
  intros H Hg. pose proof (self_assignment_empties types this a σ H) as Hself.
  rewrite Hg in Hself. eexists. do 3 (split; [exact Hself|]).
  split; [done|].
  split; [by erewrite empty_eq by apply lookup_insert_eq|].
  intros u _T. by erewrite has_eq by apply lookup_insert_eq.
Qed.

Lemma has_invalid u _T this σ :
  (∀ a, heap σ !! this ≠ Some (any_object a)) →
  has types u _T this σ = failed invalid_pointer.
Proof. intros H. unfold has. apply bind_failed. by apply read_function__invalid. Qed.

Lemma empty_invalid this σ :
  (∀ a, heap σ !! this ≠ Some (any_object a)) →
  empty this σ = failed invalid_pointer.
Proof. intros H. unfold empty. apply bind_failed. by apply read_function__invalid. Qed.

Lemma container_or_not this σ :
  (∃ a, heap σ !! this = Some (any_object a))
  ∨ (∀ a, heap σ !! this ≠ Some (any_object a)).
Proof.
  destruct (heap σ !! this) as [[a|bs]|]; [left; by exists a|right; congruence..].
Qed.

(** X3: in any state, [has], [empty], [type] and both forms of [any_cast]
    leave the memory and the trace as they were when they return: they
    construct, copy, move and destroy nothing. *)
Theorem queries_are_read_only u _T this σ :
  (∀ r σ', has types u _T this σ = ok r σ' → σ' = σ)
  ∧ (∀ r σ', empty this σ = ok r σ' → σ' = σ)
  ∧ (∀ r σ', type types this σ = ok r σ' → σ' = σ)
  ∧ (∀ cast r σ',
       any_cast_ptr types u _T = instantiated cast →
       cast (Some this) σ = ok r σ' → σ' = σ)
  ∧ (∀ cast r σ',
       any_cast_ref types u _T = instantiated cast →
       cast this σ = ok r σ' → σ' = σ).
Proof.
  destruct (container_or_not this σ) as [[a H]|H].
  - split; [|split; [|split; [|split]]].
    + intros r σ'. rewrite (has_eq _ _ _ _ _ _ H). by intros [= _ <-].
    + intros r σ'. rewrite (empty_eq _ _ _ H). by intros [= _ <-].
    + intros r σ'. rewrite (type_eq _ _ _ _ H). by intros [= _ <-].
    + intros cast r σ' Hcast. rewrite (any_cast_ptr_run _ _ _ _ _ _ _ Hcast H).
      by intros [= _ <-].
    + intros cast r σ' Hcast. rewrite (any_cast_ref_run _ _ _ _ _ _ _ Hcast H).
      destruct (holds _T a); [by intros [= _ <-]|done].
  - split; [|split; [|split; [|split]]].
    + intros r σ'. by rewrite has_invalid.
    + intros r σ'. by rewrite empty_invalid.
    + intros r σ'. unfold type. by erewrite bind_failed by by apply empty_invalid.
    + intros cast r σ' Hcast. unfold any_cast_ptr in Hcast.
      destruct (as_ _T) as [d|as_T]; [done|]. injection Hcast as <-. cbn beta.
      erewrite bind_ok by reflexivity. cbn beta.
      by erewrite bind_failed by by apply has_invalid.
    + intros cast r σ' Hcast. unfold any_cast_ref in Hcast.
      destruct (as_ _T) as [d|as_T]; [done|]. injection Hcast as <-. cbn beta.
      by erewrite bind_failed by by apply has_invalid.
Qed.

Lemma holds_add_const _T a : holds (add_const _T) a = holds _T a.
Proof. unfold holds, add_const. by destruct (reference _T). Qed.

Lemma typeid_add_const _T : typeid (add_const _T) = typeid _T.
Proof. unfold typeid, add_const. by destruct (reference _T). Qed.

Lemma reference_add_const _T : reference (add_const _T) = reference _T.
Proof. unfold add_const. by destruct (reference _T) eqn:E; cbn; rewrite ?E. Qed.

(** X4: the [const] overloads of [any_cast], and so [get() const], do what
    the others do: the same pointer or null, the same reference or the same
    [bad_any_cast] (its target type is [typeid(const _T)], which is
    [typeid(_T)]). *)
Theorem const_accessors_agree u _T this a σ :
  reference _T = no_ref →
  heap σ !! this = Some (any_object a) →
  ∃ cast_ptr cast_const_ptr cast_ref cast_const_ref,
    any_cast_ptr types u _T = instantiated cast_ptr
    ∧ any_cast_const_ptr types u _T = instantiated cast_const_ptr
    ∧ any_cast_ref types u _T = instantiated cast_ref
    ∧ any_cast_const_ref types u _T = instantiated cast_const_ref
    ∧ get types u _T = instantiated cast_ref
    ∧ get_const types u _T = instantiated cast_const_ref
    ∧ cast_const_ptr (Some this) σ = cast_ptr (Some this) σ
    ∧ cast_const_ref this σ = cast_ref this σ.
Proof.
  intros Href H.
  assert (reference (add_const _T) = no_ref) as Href' by by rewrite reference_add_const.
  destruct (any_cast_ptr_object types u _T Href) as [cast_ptr Hp].
  destruct (any_cast_ptr_object types u (add_const _T) Href') as [cast_const_ptr Hcp].
  destruct (any_cast_ref_object types u _T Href) as [cast_ref Hr].
  destruct (any_cast_ref_object types u (add_const _T) Href') as [cast_const_ref Hcr].
  exists cast_ptr, cast_const_ptr, cast_ref, cast_const_ref.
  do 6 (split; [done|]). split.
  - rewrite (any_cast_ptr_run _ _ _ _ _ _ _ Hp H), (any_cast_ptr_run _ _ _ _ _ _ _ Hcp H).
    by rewrite holds_add_const.
  - rewrite (any_cast_ref_run _ _ _ _ _ _ _ Hr H), (any_cast_ref_run _ _ _ _ _ _ _ Hcr H).
    by rewrite holds_add_const, typeid_add_const.
Qed.

(** The state a value is stored into: the representation the constructor
    made, over the bytes of the buffer. *)
Lemma store_value_run _N u _T c body this v a value σ :
  copy_or_move types _N u (deduce _T c) = instantiated body →
  reference _T = no_ref →
  heap σ !! this = Some (any_object a) → function_ a = None →
  heap σ !! v = Some (plain_object value) →
  sizeof types _T ≤ length (buff_ a) →
  length value = sizeof types _T →
  body this v σ =
    let stored :=
      any_object
        {| buff_ := overwrite
             (take (sizeof types _T)
                match c with
                | lvalue => copy_constructor (types (named _T)) value
                | rvalue => (move_constructor (types (named _T)) value).1
                end) (buff_ a);
           function_ := Some (get_function_for_type u _T) |} in
    match c with
    | lvalue =>
        ok tt {| heap := <[this := stored]> (heap σ);
                 trace := trace σ ++ [copy_constructed (plain (named _T)) this v] |}
    | rvalue =>
        ok tt {| heap := <[v := plain_object
                             (overwrite
                                (take (sizeof types _T)
                                   (move_constructor (types (named _T)) value).2)
                                value)]>
                         (<[this := stored]> (heap σ));
                 trace := trace σ ++ [move_constructed (plain (named _T)) this v] |}
    end.
Proof.
  intros Hbody Href Hthis Hf Hv Hfit Hval.
  assert (this ≠ v) as Hne by (intros ->; congruence).
  assert (take (sizeof types _T) value = value) as Htake by (apply take_ge; lia).
  destruct c.
  - pose proof (copy_or_move_lvalue types _N u _ _ this v a _ σ Hbody eq_refl Hne Hthis
      Hf Hv) as Hrun.
    specialize (Hrun ltac:(unfold sizeof in *; cbn; lia) ltac:(unfold sizeof in *; cbn; lia)).
    cbn [bytes_of named add_lvalue_reference deduce] in Hrun.
    change (sizeof types (add_lvalue_reference _T)) with (sizeof types _T) in Hrun.
    by rewrite Htake in Hrun.
  - pose proof (copy_or_move_rvalue types _N u _ _ this v a _ σ Hbody ltac:(done) Hne Hthis
      Hf Hv) as Hrun.
    specialize (Hrun ltac:(unfold sizeof in *; cbn; lia) ltac:(unfold sizeof in *; cbn; lia)).
    cbn [bytes_of named remove_reference_t deduce with_bytes] in Hrun.
    change (sizeof types (remove_reference_t _T)) with (sizeof types _T) in Hrun.
    cbn zeta in Hrun. by rewrite Htake in Hrun.
Qed.

Lemma assign_value_eq _N u _T body :
  copy_or_move types _N u (forwarded _T) = instantiated body →
  assign_value types _N u _T =
    instantiated (λ this t, destroy types this;; body this t;; mret this).
Proof.
  intros H. unfold assign_value. rewrite std_forward_parameter.
  unfold mbind at 1, template_bind. by rewrite H.
Qed.

Lemma copy_or_move_deduced _N u _T c :
  sizeof types _T ≤ _N →
  ∃ body, copy_or_move types _N u (forwarded (deduce _T c)) = instantiated body
        ∧ copy_or_move types _N u (deduce _T c) = instantiated body.
Proof.
  intros H. rewrite forwarded_deduce. rewrite copy_or_move_fits; [by eexists|].
  by destruct c.
Qed.

(** X9: the constructor from a value copy-constructs from an lvalue, which
    it leaves as it was, and move-constructs from an rvalue, which it leaves
    as the move constructor of the type does; afterwards the container is
    not empty, [has<_T>()] is true and [type()] is [typeid(_T)]. *)
Theorem value_is_copied_or_moved _N u u' _T c this v storage value σ :
  reference _T = no_ref →
  sizeof types _T ≤ _N →
  heap σ !! this = Some (any_object storage) →
  length (buff_ storage) = _N →
  heap σ !! v = Some (plain_object value) →
  length value = sizeof types _T →
  ∃ construct σ',
    static_any_value types _N u (deduce _T c) = instantiated construct
    ∧ construct this v σ = ok tt σ'
    ∧ trace σ' = trace σ
        ++ [match c with
            | lvalue => copy_constructed (plain (named _T)) this v
            | rvalue => move_constructed (plain (named _T)) this v
            end]
    ∧ heap σ' !! v
      = Some (plain_object
                match c with
                | lvalue => value
                | rvalue =>
                    overwrite
                      (take (sizeof types _T)
                         (move_constructor (types (named _T)) value).2)
                      value
                end)
    ∧ has types u' _T this σ' = ok true σ'
    ∧ type types this σ' = ok (typeid _T) σ'
    ∧ empty this σ' = ok false σ'.
Proof.
  intros Href Hfit Hthis Hlen Hv Hval.
  assert (this ≠ v) as Hne by (intros ->; congruence).
  destruct (copy_or_move_deduced _N u _T c Hfit) as (body & Hfw & Hbody).
  pose proof (store_value_run _N u _T c body this v
    {| buff_ := buff_ storage; function_ := None |} value
    {| heap := <[this := any_object {| buff_ := buff_ storage; function_ := None |}]> (heap σ);
       trace := trace σ |} Hbody Href) as Hrun.
  specialize (Hrun ltac:(apply lookup_insert_eq) eq_refl
    ltac:(by cbn; rewrite lookup_insert_ne) ltac:(cbn; lia) Hval).
  cbn [heap trace buff_] in Hrun.
  assert (∀ σ' stored,
    heap σ' !! this
    = Some (any_object {| buff_ := stored; function_ := Some (get_function_for_type u _T) |}) →
    has types u' _T this σ' = ok true σ'
    ∧ type types this σ' = ok (typeid _T) σ'
    ∧ empty this σ' = ok false σ') as Hqueries.
  { intros σ' stored H'. split; [|split].
    - rewrite (has_eq _ _ _ _ _ _ H'). f_equal. apply holds_iff. by eexists.
    - by rewrite (type_eq _ _ _ _ H').
    - by rewrite (empty_eq _ _ _ H'). }
  destruct c; cbn zeta in Hrun.
  - eexists _, _. split; [by apply static_any_value_eq|].
    split; [cbn beta; erewrite bind_ok by (by apply write_function__eq); exact Hrun|].
    split; [done|]. split; [by cbn; rewrite !lookup_insert_ne|].
    eapply Hqueries. apply lookup_insert_eq.
  - eexists _, _. split; [by apply static_any_value_eq|].
    split; [cbn beta; erewrite bind_ok by (by apply write_function__eq); exact Hrun|].
    split; [done|]. split; [apply lookup_insert_eq|].
    eapply Hqueries. cbn. rewrite lookup_insert_ne by done. apply lookup_insert_eq.
Qed.

(** X10: assigning a value destroys the value held before, if any, and
    then copy- or move-constructs the new one over the same buffer; the
    container then holds a [_T] and no type of another name. *)
Theorem assignment_replaces_the_value _N u u' _T c this v a value σ :
  reference _T = no_ref →
  sizeof types _T ≤ _N →
  heap σ !! this = Some (any_object a) →
  length (buff_ a) = _N →
  heap σ !! v = Some (plain_object value) →
  length value = sizeof types _T →
  ∃ assign σ',
    assign_value types _N u (deduce _T c) = instantiated assign
    ∧ assign this v σ = ok this σ'
    ∧ trace σ' = trace σ
        ++ match function_ a with
           | Some g => [destroyed (operation_for g) this]
           | None => []
           end
        ++ [match c with
            | lvalue => copy_constructed (plain (named _T)) this v
            | rvalue => move_constructed (plain (named _T)) this v
            end]
    ∧ heap σ' !! this
      = Some (any_object
                {| buff_ := overwrite
                     (take (sizeof types _T)
                        match c with
                        | lvalue => copy_constructor (types (named _T)) value
                        | rvalue => (move_constructor (types (named _T)) value).1
                        end) (buff_ a);
                   function_ := Some (get_function_for_type u _T) |})
    ∧ has types u' _T this σ' = ok true σ'
    ∧ (∀ _U, named _U ≠ named _T → has types u' _U this σ' = ok false σ').
Proof.
  intros Href Hfit Hthis Hlen Hv Hval.
  assert (this ≠ v) as Hne by (intros ->; congruence).
  destruct (copy_or_move_deduced _N u _T c Hfit) as (body & Hfw & Hbody).
  assert (∃ σ0,
    destroy types this σ = ok tt σ0
    ∧ heap σ0 = <[this := any_object {| buff_ := buff_ a; function_ := None |}]> (heap σ)
    ∧ trace σ0 = trace σ
        ++ match function_ a with
           | Some g => [destroyed (operation_for g) this]
           | None => []
           end) as (σ0 & Hdestroy & Hheap0 & Htrace0).
  { rewrite (destroy_eq _ _ _ _ Hthis). destruct (function_ a) as [g|] eqn:Hg.
    - by eexists.
    - exists σ. split; [done|]. split; [|by rewrite app_nil_r].
      symmetry. apply insert_id. rewrite Hthis. by destruct a; cbn in *; subst. }
  pose proof (store_value_run _N u _T c body this v
    {| buff_ := buff_ a; function_ := None |} value σ0 Hbody Href) as Hrun.
  specialize (Hrun ltac:(rewrite Hheap0; apply lookup_insert_eq) eq_refl
    ltac:(by rewrite Hheap0, lookup_insert_ne) ltac:(cbn; lia) Hval).
  cbn zeta in Hrun. cbn [buff_] in Hrun.
  assert (∀ σ' stored,
    heap σ' !! this
    = Some (any_object {| buff_ := stored; function_ := Some (get_function_for_type u _T) |}) →
    has types u' _T this σ' = ok true σ'
    ∧ (∀ _U, named _U ≠ named _T → has types u' _U this σ' = ok false σ')) as Hhas.
  { intros σ' stored H'. split.
    - rewrite (has_eq _ _ _ _ _ _ H'). f_equal. apply holds_iff. by eexists.
    - intros _U HU. rewrite (has_eq _ _ _ _ _ _ H'). f_equal.
      apply not_true_is_false. rewrite holds_iff. intros (f & [= <-] & Hn).
      by destruct HU. }
  rewrite Hheap0, Htrace0 in Hrun.
  destruct c; cbn zeta in Hrun.
  - eexists _, _. split; [by apply assign_value_eq|].
    split.
    { cbn beta. erewrite bind_ok by exact Hdestroy. cbn beta.
      by erewrite bind_ok by exact Hrun. }
    cbn [heap trace]. split; [by rewrite <-(assoc_L (++))|].
    split; [apply lookup_insert_eq|].
    eapply Hhas. apply lookup_insert_eq.
  - eexists _, _. split; [by apply assign_value_eq|].
    split.
    { cbn beta. erewrite bind_ok by exact Hdestroy. cbn beta.
      by erewrite bind_ok by exact Hrun. }
    cbn [heap trace]. split; [by rewrite <-(assoc_L (++))|].
    split; [by rewrite lookup_insert_ne by done; apply lookup_insert_eq|].
    eapply Hhas. cbn [heap]. rewrite lookup_insert_ne by done. apply lookup_insert_eq.
Qed.

(** ** What every mutating member keeps *)

Lemma length_overwrite_take n bs region :
  n ≤ length region → length (overwrite (take n bs) region) = length region.
Proof. intros H. apply length_overwrite. rewrite length_take. lia. Qed.










Lemma same_layout_object_refl o : same_layout_object o o.
Proof. by destruct o. Qed.


Lemma same_layout_refl σ : same_layout σ σ.
Proof. intros a. destruct (heap σ !! a); constructor. apply same_layout_object_refl. Qed.


















(** X11: [operator=(const _T&)] cannot be instantiated for a [_T] that is
    neither a reference nor [const], as deduction gives it: [std::forward<_T>]
    does not take its [const] parameter. Constructing from a [const] lvalue
    and assigning from a plain lvalue are well-formed. *)
Theorem const_lvalue_constructs_but_does_not_assign _N u _T :
  reference _T = no_ref →
  is_const _T = false →
  sizeof types _T ≤ _N →
  (∃ construct,
     static_any_value types _N u (deduce (add_const _T) lvalue) = instantiated construct)
  ∧ (∃ assign,
     assign_value types _N u (deduce _T lvalue) = instantiated assign)
  ∧ assign_const_value types _N u _T
    = ill_formed "no matching function for call to forward".
Proof.
  intros Href Hc Hfit. split; [|split].
  - destruct (copy_or_move_deduced _N u (add_const _T) lvalue) as (body & Hfw & _).
    { unfold sizeof, add_const in *. by destruct (reference _T). }
    eexists. by apply static_any_value_eq.
  - destruct (copy_or_move_deduced _N u _T lvalue Hfit) as (body & Hfw & _).
    eexists. by apply assign_value_eq.
  - by apply assign_const_value_is_ill_formed.
Qed.

(** X8: a container constructed as a copy of another holds the replica the
    copy constructor made, and the two are independent: giving the source
    another value with [emplace] leaves the copy as it was, and giving the
    copy another value leaves the source as it was. *)
Theorem a_copy_is_independent u _U this another dst src f args σ :
  this ≠ another →
  heap σ !! this = Some (any_object dst) →
  heap σ !! another = Some (any_object src) →
  function_ src = Some f →
  sizeof types (operation_for f) ≤ length (buff_ src) →
  sizeof types (operation_for f) ≤ length (buff_ dst) →
  reference _U = no_ref →
  sizeof types _U ≤ length (buff_ src) →
  sizeof types _U ≤ length (buff_ dst) →
  let _T := operation_for f in
  let replica :=
    take (sizeof types _T)
      (copy_constructor (types (named _T)) (take (sizeof types _T) (buff_ src))) in
  let copy := any_object {| buff_ := overwrite replica (buff_ dst); function_ := Some f |} in
  ∃ emplace_U σ1 σ2 σ3,
    static_any_const_ref types this another σ = ok tt σ1
    ∧ heap σ1 !! this = Some copy
    ∧ heap σ1 !! another = Some (any_object src)
    ∧ emplace types u _U = instantiated emplace_U
    ∧ emplace_U another args σ1 = ok tt σ2
    ∧ heap σ2 !! this = Some copy
    ∧ emplace_U this args σ1 = ok tt σ3
    ∧ heap σ3 !! another = Some (any_object src).
Proof.
  intros Hne Hdst Hsrc Hf Hs Hd Href HUs HUd _T replica copy.
  pose proof (emplace_object types u _U Href) as Hemplace.
  assert (static_any_const_ref types this another σ =
    ok tt {| heap := <[this := copy]> (heap σ);
             trace := trace σ ++ [copy_constructed _T this another] |}) as Hcopy.
  { unfold static_any_const_ref, static_any_default.
    erewrite bind_ok by by apply write_function__eq.
    erewrite copy_from_another_eq;
      [|done|apply lookup_insert_eq|by cbn; rewrite lookup_insert_ne|done..].
    cbn. by rewrite insert_insert_eq. }
  set (σ1 := {| heap := <[this := copy]> (heap σ);
                trace := trace σ ++ [copy_constructed _T this another] |}) in *.
  assert (heap σ1 !! this = Some copy) as H1 by apply lookup_insert_eq.
  assert (heap σ1 !! another = Some (any_object src)) as H1'
    by by cbn; rewrite lookup_insert_ne.
  eexists _, σ1, _, _. split; [exact Hcopy|]. split; [exact H1|]. split; [exact H1'|].
  split; [exact Hemplace|].
  split; [exact (emplace_run types u _U _ another args src σ1 Hemplace H1' HUs)|].
  split; [by cbn [heap]; rewrite lookup_insert_ne|].
  assert (sizeof types _U
          ≤ length (buff_ {| buff_ := overwrite replica (buff_ dst); function_ := Some f |}))
    as HUc by (cbn; unfold replica; by rewrite length_overwrite_take).
  split; [exact (emplace_run types u _U _ this args _ σ1 Hemplace H1 HUc)|].
  by cbn [heap]; rewrite lookup_insert_ne.
Qed.

(** X14: constructing or assigning a [static_any_t<_N>] from an rvalue of a
    trivially copyable type that fits copies its [sizeof] bytes over the
    beginning of the buffer, leaves the rest of the buffer, and calls no
    constructor or destructor; [get<_U>()], for any object type that fits,
    checks nothing and reads the first [sizeof(_U)] bytes of the buffer. *)
Theorem static_any_t_holds_raw_bytes _N _T this t o value σ :
  reference _T = no_ref →
  is_trivially_copyable types _T = true →
  sizeof types _T ≤ _N →
  heap σ !! this = Some o → length (bytes_of o) = _N →
  heap σ !! t = Some (plain_object value) → length value = sizeof types _T →
  let stored := value ++ drop (sizeof types _T) (bytes_of o) in
  ∃ construct assign σ',
    static_any_t_value types _N (deduce _T rvalue) = instantiated construct
    ∧ static_any_t_assign types _N (deduce _T rvalue) = instantiated assign
    ∧ construct this t σ = ok tt σ'
    ∧ assign this t σ = ok this σ'
    ∧ trace σ' = trace σ
    ∧ heap σ' = <[this := with_bytes o stored]> (heap σ)
    ∧ ∀ _U, reference _U = no_ref → sizeof types _U ≤ _N →
        ∃ get_U,
          static_any_t_get _U = instantiated get_U
          ∧ static_any_t_get_const _U = instantiated get_U
          ∧ get_U this σ' = ok this σ'
          ∧ value_of types _U this σ' = ok (take (sizeof types _U) stored) σ'.
Proof.
  intros Href Htc Hfit Hthis Hlen Ht Hval stored.
  destruct (static_any_t_rvalue_roundtrip types _N _T this t o value σ)
    as (construct & assign & get_T & Hc & Ha & _ & Hrun & Hrun' & _); try done.
  assert (overwrite value (bytes_of o) = stored) as Hstored
    by (unfold overwrite, stored; by rewrite Hval).
  rewrite Hstored in Hrun, Hrun'.
  eexists construct, assign, _. do 2 (split; [done|]).
  split; [exact Hrun|]. split; [exact Hrun'|]. split; [done|]. split; [done|].
  intros _U HU HUfit.
  assert (static_any_t_get _U = instantiated (λ this, indirection (buff_data this))) as Hget
    by (unfold static_any_t_get; by rewrite bool_decide_eq_true_2).
  eexists. split; [exact Hget|].
  split.
  { unfold static_any_t_get_const, static_any_t_get.
    by rewrite reference_add_const, bool_decide_eq_true_2. }
  split; [done|].
  unfold value_of. erewrite load_eq; [|apply lookup_insert_eq|].
  - by destruct o.
  - assert (length stored = _N) as Hl.
    { unfold stored. rewrite length_app, length_drop. lia. }
    destruct o; cbn [bytes_of with_bytes buff_]; lia.
Qed.

(** X16: the copy constructor of [static_any_t<_N>] copies the [_N] bytes:
    through the copy every type that fits reads what it reads through the
    source. *)
Theorem static_any_t_copy_reads_the_same _N this another o o' σ :
  heap σ !! this = Some o → length (bytes_of o) = _N →
  heap σ !! another = Some o' → length (bytes_of o') = _N →
  ∃ σ',
    static_any_t_const_ref _N this another σ = ok tt σ'
    ∧ trace σ' = trace σ
    ∧ heap σ' = <[this := with_bytes o (bytes_of o')]> (heap σ)
    ∧ ∀ _U, sizeof types _U ≤ _N →
        value_of types _U this σ' = ok (take (sizeof types _U) (bytes_of o')) σ'
        ∧ value_of types _U another σ = ok (take (sizeof types _U) (bytes_of o')) σ.
Proof.
  intros Hthis Hlen Hanother Hlen'.
  assert (overwrite (take _N (take _N (bytes_of o'))) (bytes_of o) = bytes_of o') as Hbytes.
  { rewrite !(take_ge (bytes_of o')) by lia. unfold overwrite.
    rewrite drop_ge by lia. apply app_nil_r. }
  eexists. split.
  { unfold static_any_t_const_ref, memcpy, buff_data.
    erewrite bind_ok by (eapply load_eq; [done|lia]). cbn beta.
    rewrite (store_eq _ _ _ _ _ Hthis) by lia. by rewrite Hbytes. }
  split; [done|]. split; [done|].
  intros _U HU. unfold value_of. split.
  - erewrite load_eq; [|apply lookup_insert_eq|].
    + by destruct o.
    + destruct o; cbn [bytes_of with_bytes buff_]; lia.
  - erewrite load_eq; [done|done|lia].
Qed.

(** X15: whatever the value category, [static_any_t<_N>] rejects at compile
    time a type that is not trivially copyable and a type larger than
    [_N]. *)
Theorem static_any_t_rejects_what_it_cannot_hold _N _T c :
  trivially_copyable (types (named _T)) = false ∨ _N < sizeof types _T →
  (∃ d, static_any_t_value types _N (deduce _T c) = ill_formed d)
  ∧ (∃ d, static_any_t_assign types _N (deduce _T c) = ill_formed d).
Proof.
  intros H.
  assert (∃ d, static_any_t_copy types _N (deduce _T c) = ill_formed d) as [d Hd].
  { unfold static_any_t_copy, capacity.
    destruct (is_trivially_copyable types (deduce _T c)) eqn:Htc; [|by eexists].
    rewrite bool_decide_eq_false_2; [by eexists|].
    destruct H as [H|H]; [|by destruct c; unfold sizeof in *; cbn; lia].
    destruct c; unfold is_trivially_copyable in Htc; cbn in Htc; congruence. }
  unfold static_any_t_value, static_any_t_assign.
  rewrite std_forward_parameter, forwarded_deduce.
  unfold mbind at 1 3, template_bind. rewrite Hd. split; by eexists.
Qed.

End further_properties.

(** ** The further properties at concrete inputs *)

Lemma reset_destroys_once_witness :
  ∃ σ',
    reset sample_types 1 sample_machine = ok tt σ'
    ∧ trace σ' = [destroyed int 1]
    ∧ empty 1 σ' = ok true σ'
    ∧ reset sample_types 1 σ' = ok tt σ'.
Proof.
  destruct (reset_destroys_once sample_types 1 sample_any sample_machine)
    as (σ' & Hreset & _ & Htrace & _ & _ & Hempty & Hagain); [reflexivity|].
  exists σ'. split; [exact Hreset|]. split; [exact Htrace|].
  split; [exact Hempty|exact Hagain].
Defined.

Lemma has_is_independent_of_the_translation_unit_witness :
  has sample_types 0 int 1 sample_machine = ok true sample_machine
  ∧ has sample_types 5 int 1 sample_machine = ok true sample_machine.
Proof.
  destruct (has_is_independent_of_the_translation_unit sample_types 0 5 int 1
              sample_any sample_machine)
    as (held & Hhas & Hhas' & Hheld); [reflexivity|].
  assert (held = true) as ->.
  { apply Hheld. eexists. split; reflexivity. }
  split; [exact Hhas|exact Hhas'].
Defined.

Lemma const_accessors_agree_witness :
  ∃ cast_ref cast_const_ref,
    get sample_types 0 double = instantiated cast_ref
    ∧ get_const sample_types 0 double = instantiated cast_const_ref
    ∧ cast_const_ref 1 sample_machine = cast_ref 1 sample_machine.
Proof.
  destruct (const_accessors_agree sample_types 0 double 1 sample_any sample_machine)
    as (cast_ptr & cast_const_ptr & cast_ref & cast_const_ref
        & _ & _ & _ & _ & Hget & Hget_const & _ & Hsame);
    [reflexivity|reflexivity|].
  exists cast_ref, cast_const_ref.
  split; [exact Hget|]. split; [exact Hget_const|exact Hsame].
Defined.

Lemma from_an_empty_source_witness :
  ∃ σ1 σ2,
    static_any_const_ref sample_types 1 3 sample_machine = ok tt σ1
    ∧ empty 1 σ1 = ok true σ1
    ∧ assign_const_ref sample_types 1 3 sample_machine = ok 1 σ2
    ∧ trace σ2 = [destroyed int 1]
    ∧ empty 1 σ2 = ok true σ2.
Proof.
  destruct (from_an_empty_source sample_types 1 3 sample_any
              {| buff_ := replicate 4 x00; function_ := None |} sample_machine)
    as (σ1 & σ2 & Hctor & _ & _ & _ & Hempty & Hassign & _ & _ & Htrace & Hempty');
    [reflexivity|reflexivity|reflexivity|].
  exists σ1, σ2. split; [exact Hctor|]. split; [exact Hempty|].
  split; [exact Hassign|]. split; [exact Htrace|exact Hempty'].
Defined.

Lemma transfer_is_not_bounds_checked_witness :
  static_any_rvalue_ref sample_types 3 8 second_machine = failed out_of_bounds
  ∧ assign_const_ref sample_types 3 8 second_machine = failed out_of_bounds.
Proof.
  destruct (transfer_is_not_bounds_checked sample_types 3 8
              {| buff_ := replicate 4 x00; function_ := None |} sample_double_any
              {| translation_unit := 0; operation_for := double |} second_machine)
    as (_ & _ & Hctor & Hassign & _);
    [reflexivity|reflexivity|reflexivity|vm_compute; lia|vm_compute; lia|].
  split; [exact Hctor|exact Hassign].
Defined.

Lemma self_assignment_loses_the_value_witness :
  ∃ σ',
    assign_const_ref sample_types 1 1 sample_machine = ok 1 σ'
    ∧ trace σ' = [destroyed int 1]
    ∧ empty 1 σ' = ok true σ'.
Proof.
  destruct (self_assignment_loses_the_value sample_types 1 sample_any
              {| translation_unit := 0; operation_for := int |} sample_machine)
    as (σ' & Hassign & _ & _ & Htrace & Hempty & _); [reflexivity|reflexivity|].
  exists σ'. split; [exact Hassign|]. split; [exact Htrace|exact Hempty].
Defined.

Lemma a_copy_is_independent_witness :
  ∃ emplace_double σ1 σ2,
    static_any_const_ref sample_types 5 1 sample_machine = ok tt σ1
    ∧ emplace sample_types 0 double = instantiated emplace_double
    ∧ emplace_double 1 [double_3_5] σ1 = ok tt σ2
    ∧ heap σ2 !! 5 = heap σ1 !! 5.
Proof.
  destruct (a_copy_is_independent sample_types 0 double 5 1
              {| buff_ := replicate 24 x00; function_ := None |} sample_any
              {| translation_unit := 0; operation_for := int |} [double_3_5]
              sample_machine)
    as (emplace_double & σ1 & σ2 & σ3 & Hcopy & H1 & _ & Hemplace & Hrun & H2 & _);
    [lia|reflexivity|reflexivity|reflexivity|vm_compute; lia|vm_compute; lia
    |reflexivity|vm_compute; lia|vm_compute; lia|].
  exists emplace_double, σ1, σ2. split; [exact Hcopy|]. split; [exact Hemplace|].
  split; [exact Hrun|]. exact (eq_trans H2 (eq_sym H1)).
Defined.

Lemma value_is_copied_or_moved_witness :
  ∃ construct σ',
    static_any_value sample_types 32 0 (deduce std_string rvalue) = instantiated construct
    ∧ construct 11 10 second_machine = ok tt σ'
    ∧ trace σ' = [move_constructed std_string 11 10]
    ∧ heap σ' !! 10 = Some (plain_object (replicate 32 x00))
    ∧ has sample_types 1 std_string 11 σ' = ok true σ'.
Proof.
  destruct (value_is_copied_or_moved sample_types 32 0 1 std_string rvalue 11 10
              {| buff_ := replicate 32 x00; function_ := None |} (replicate 32 x01)
              second_machine)
    as (construct & σ' & Hctor & Hrun & Htrace & Hv & Hhas & _);
    [reflexivity|vm_compute; lia|reflexivity|reflexivity|reflexivity|reflexivity|].
  exists construct, σ'. split; [exact Hctor|]. split; [exact Hrun|].
  split; [exact Htrace|]. split; [exact Hv|exact Hhas].
Defined.

Lemma assignment_replaces_the_value_witness :
  ∃ assign σ',
    assign_value sample_types 16 0 (deduce double lvalue) = instantiated assign
    ∧ assign 1 4 sample_machine = ok 1 σ'
    ∧ trace σ' = [destroyed int 1; copy_constructed double 1 4]
    ∧ has sample_types 0 double 1 σ' = ok true σ'
    ∧ has sample_types 0 int 1 σ' = ok false σ'.
Proof.
  destruct (assignment_replaces_the_value sample_types 16 0 0 double lvalue 1 4
              sample_any double_3_5 sample_machine)
    as (assign & σ' & Hassign & Hrun & Htrace & _ & Hhas & Hnot);
    [reflexivity|vm_compute; lia|reflexivity|reflexivity|reflexivity|reflexivity|].
  exists assign, σ'. split; [exact Hassign|]. split; [exact Hrun|].
  split; [exact Htrace|]. split; [exact Hhas|]. apply Hnot. discriminate.
Defined.

Lemma const_lvalue_constructs_but_does_not_assign_witness :
  (∃ construct,
     static_any_value sample_types 16 0 (deduce (add_const int) lvalue)
     = instantiated construct)
  ∧ assign_const_value sample_types 16 0 int
    = ill_formed "no matching function for call to forward".
Proof.
  destruct (const_lvalue_constructs_but_does_not_assign sample_types 16 0 int)
    as (Hctor & _ & Hassign); [reflexivity|reflexivity|vm_compute; lia|].
  split; [exact Hctor|exact Hassign].
Defined.


Lemma static_any_t_holds_raw_bytes_witness :
  ∃ construct get_int σ',
    static_any_t_value sample_types 16 (deduce double rvalue) = instantiated construct
    ∧ construct 6 4 sample_machine = ok tt σ'
    ∧ trace σ' = []
    ∧ static_any_t_get int = instantiated get_int
    ∧ get_int 6 σ' = ok 6 σ'
    ∧ value_of sample_types int 6 σ' = ok [x00; x00; x00; x00] σ'.
Proof.
  destruct (static_any_t_holds_raw_bytes sample_types 16 double 6 4
              (plain_object (replicate 16 x00)) double_3_5 sample_machine)
    as (construct & assign & σ' & Hctor & _ & Hrun & _ & Htrace & _ & Hget);
    [reflexivity|reflexivity|vm_compute; lia|reflexivity|reflexivity|reflexivity
    |reflexivity|].
  destruct (Hget int) as (get_int & Hget_int & _ & Hrun_get & Hvalue);
    [reflexivity|vm_compute; lia|].
  exists construct, get_int, σ'. split; [exact Hctor|]. split; [exact Hrun|].
  split; [exact Htrace|]. split; [exact Hget_int|]. split; [exact Hrun_get|].
  exact Hvalue.
Defined.

Lemma static_any_t_rejects_what_it_cannot_hold_witness :
  (∃ d, static_any_t_value sample_types 64 (deduce std_string rvalue) = ill_formed d)
  ∧ (∃ d, static_any_t_assign sample_types 4 (deduce double rvalue) = ill_formed d).
Proof.
  destruct (static_any_t_rejects_what_it_cannot_hold sample_types 64 std_string rvalue)
    as (Hctor & _); [left; reflexivity|].
  destruct (static_any_t_rejects_what_it_cannot_hold sample_types 4 double rvalue)
    as (_ & Hassign); [right; vm_compute; lia|].
  split; [exact Hctor|exact Hassign].
Defined.

Lemma static_any_t_copy_reads_the_same_witness :
  ∃ σ',
    static_any_t_const_ref 16 6 9 second_machine = ok tt σ'
    ∧ value_of sample_types int 6 σ' = ok int_42 σ'.
Proof.
  destruct (static_any_t_copy_reads_the_same sample_types 16 6 9
              (plain_object (replicate 16 x00))
              (plain_object (int_42 ++ replicate 12 x00)) second_machine)
    as (σ' & Hcopy & _ & _ & Hread);
    [reflexivity|reflexivity|reflexivity|reflexivity|].
  exists σ'. split; [exact Hcopy|].
  destruct (Hread int) as [Hvalue _]; [vm_compute; lia|]. exact Hvalue.
Defined.
